(** * IPTV catalogue API: the request handlers and their filter / join /
    pagination pipeline, embedded from the JavaScript sources

    - [api/channels.js]      the /channels handler (remote datasets)
    - [unnamed/part_000]     the strict /search handler (q is required)
    - [api/search.js]        the advanced /search handler (bundled datasets)
    - [api/categories.js]    the /categories handler

    Modelling conventions.  JavaScript strings are modelled as [string]
    (8-bit characters); [toUpperCase] and [toLowerCase] map the ASCII letters
    and leave every other character alone.  A JSON field that may be null or
    missing is an [option]; the two are not told apart, since the handlers
    only test such fields for truthiness or compare them with strings.  A
    query parameter is an optional string.  JavaScript numbers are [NaN] or an
    exact integer, which is what [parseInt] yields in the safe integer range
    (up to 2^53 in absolute value). *)

From Stdlib Require Import List String Ascii ZArith Bool Lia Arith.
From Stdlib Require Import Sorted Permutation.
Import ListNotations.
Local Open Scope string_scope.
Local Open Scope list_scope.

Set Implicit Arguments.

(* ------------------------------------------------------------------ *)
(** ** JavaScript primitives used by the handlers *)

Module Js.

(** [String.prototype.toUpperCase] / [toLowerCase] on one character: the
    mapping of the ASCII letters.  On ASCII text this is the mapping of
    JavaScript exactly; JavaScript also maps the letters beyond ASCII, some
    to several characters, which this model leaves as they are.  A statement
    that depends on how letters are mapped, and not only on the same mapping
    being applied on both sides, is stated for ASCII text
    ([Spec.ascii_only]). *)
Definition upper_ascii (c : ascii) : ascii :=
  let n := nat_of_ascii c in
  if (97 <=? n)%nat && (n <=? 122)%nat then ascii_of_nat (n - 32) else c.

Definition lower_ascii (c : ascii) : ascii :=
  let n := nat_of_ascii c in
  if (65 <=? n)%nat && (n <=? 90)%nat then ascii_of_nat (n + 32) else c.

Fixpoint toUpperCase (s : string) : string :=
  match s with
  | EmptyString => EmptyString
  | String c r => String (upper_ascii c) (toUpperCase r)
  end.

Fixpoint toLowerCase (s : string) : string :=
  match s with
  | EmptyString => EmptyString
  | String c r => String (lower_ascii c) (toLowerCase r)
  end.

(** [s.includes(sub)]: [sub] occurs in [s] at some position. *)
Fixpoint includes (s sub : string) : bool :=
  prefix sub s ||
  match s with
  | EmptyString => false
  | String _ r => includes r sub
  end.

(** [arr.includes(x)] on an array of strings. *)
Definition arr_includes (l : list string) (x : string) : bool :=
  existsb (String.eqb x) l.

(** Truthiness of a string-or-null value: null, undefined and the empty
    string are falsy. *)
Definition truthy (o : option string) : bool :=
  match o with
  | Some s => negb (s =? "")
  | None => false
  end.

(** [v || null] on a string-or-null value. *)
Definition or_null (o : option string) : option string :=
  if truthy o then o else None.

(** [v || []] on an array-or-null value. *)
Definition or_empty {A} (o : option (list A)) : list A :=
  match o with Some l => l | None => [] end.

(** [x === y] between a string-or-null value and a string. *)
Definition strict_eq (o : option string) (s : string) : bool :=
  match o with
  | Some t => t =? s
  | None => false
  end.

(** Numbers: [NaN] or an integer.  The numbers the handlers meet are results
    of [parseInt], sums of two of them and array lengths.  The model is exact
    where these are safe integers (absolute value at most 2^53); beyond,
    JavaScript rounds to the nearest double and overflows to an infinity,
    which has no counterpart here.  A statement that reads [add] and [lt] as
    exact arithmetic is stated for safe numbers ([Spec.safe]) or for numbers
    that are not negative, where the clamping of [slice] makes the rounding
    invisible. *)
Inductive num := NaN | Int (z : Z).

Definition add (a b : num) : num :=
  match a, b with
  | Int x, Int y => Int (x + y)
  | _, _ => NaN
  end.

(** [a < b]; any comparison with [NaN] is false. *)
Definition lt (a b : num) : bool :=
  match a, b with
  | Int x, Int y => (x <? y)%Z
  | _, _ => false
  end.

(** White space skipped by [parseInt], in the ASCII range: TAB, LF, VT, FF,
    CR, SP.  (JavaScript also skips the white space beyond ASCII.) *)
Definition is_space (c : ascii) : bool :=
  let n := nat_of_ascii c in
  ((9 <=? n)%nat && (n <=? 13)%nat) || (n =? 32)%nat.

Fixpoint trim_start (s : string) : string :=
  match s with
  | String c r => if is_space c then trim_start r else s
  | EmptyString => EmptyString
  end.

(** Value of a character as a digit in base [radix] (10 or 16). *)
Definition digit (radix : Z) (c : ascii) : option Z :=
  let n := Z.of_nat (nat_of_ascii c) in
  let v := if (48 <=? n)%Z && (n <=? 57)%Z then Some (n - 48)%Z
           else if (97 <=? n)%Z && (n <=? 122)%Z then Some (n - 87)%Z
           else if (65 <=? n)%Z && (n <=? 90)%Z then Some (n - 55)%Z
           else None in
  match v with
  | Some d => if (d <? radix)%Z then Some d else None
  | None => None
  end.

(** The longest prefix of digits, read most significant digit first;
    [None] when the prefix is empty. *)
Fixpoint digits (radix : Z) (acc : option Z) (s : string) : option Z :=
  match s with
  | EmptyString => acc
  | String c r =>
      match digit radix c with
      | Some d =>
          digits radix
            (Some (match acc with Some a => a * radix + d | None => d end)%Z) r
      | None => acc
      end
  end.

Definition strip_hex (s : string) : option string :=
  match s with
  | String "0" (String "x" r) => Some r
  | String "0" (String "X" r) => Some r
  | _ => None
  end.

(** [parseInt(s)] with no radix argument, on ASCII text: the exact value of
    the digits, which is the result of JavaScript where it is a safe
    integer. *)
Definition parseInt (s : string) : num :=
  let t := trim_start s in
  let '(sign, t) :=
    match t with
    | String "-" r => ((-1)%Z, r)
    | String "+" r => (1%Z, r)
    | _ => (1%Z, t)
    end in
  let '(radix, t) :=
    match strip_hex t with
    | Some r => (16%Z, r)
    | None => (10%Z, t)
    end in
  match digits radix None t with
  | Some v => Int (sign * v)
  | None => NaN
  end.

(** [ToIntegerOrInfinity]: [NaN] becomes 0. *)
Definition to_integer (n : num) : Z :=
  match n with NaN => 0%Z | Int z => z end.

(** A relative index of [slice], clamped into [0, len]. *)
Definition rel_index (len k : Z) : Z :=
  if (k <? 0)%Z then Z.max (len + k) 0 else Z.min k len.

(** [arr.slice(start, end)]. *)
Definition slice {A} (l : list A) (start end_ : num) : list A :=
  let len := Z.of_nat (List.length l) in
  let k := rel_index len (to_integer start) in
  let final := rel_index len (to_integer end_) in
  firstn (Z.to_nat (final - k)) (skipn (Z.to_nat k) l).

(** [arr.find(p)]. *)
Definition find {A} (p : A -> bool) (l : list A) : option A := List.find p l.

(** [arr.sort((a, b) => key(b) - key(a))]: the sort is stable, so on a
    numeric key it is the stable sort by decreasing key.  [insert_desc x l]
    puts [x], which came earlier than every element of [l], in front of the
    first element whose key is not greater than its own. *)
Section Sort.
Variable A : Type.
Variable key : A -> nat.

Fixpoint insert_desc (x : A) (l : list A) : list A :=
  match l with
  | [] => [x]
  | y :: r => if (key y <=? key x)%nat then x :: y :: r
              else y :: insert_desc x r
  end.

Fixpoint sort_desc (l : list A) : list A :=
  match l with
  | [] => []
  | x :: r => insert_desc x (sort_desc r)
  end.
End Sort.

(** Exceptions: a computation returns a value or throws. *)
Inductive result (A : Type) := Ok (a : A) | Throw.
Arguments Throw {A}.

Definition bind {A B} (m : result A) (k : A -> result B) : result B :=
  match m with
  | Ok a => k a
  | Throw => Throw
  end.

(** [arr.filter(p)] where the callback may throw. *)
Fixpoint filterM {A} (p : A -> result bool) (l : list A) : result (list A) :=
  match l with
  | [] => Ok []
  | x :: r =>
      bind (p x) (fun b =>
      bind (filterM p r) (fun r' =>
      Ok (if b then x :: r' else r')))
  end.

End Js.

Notation "x <- m ;; k" := (Js.bind m (fun x => k))
  (at level 61, m at next level, right associativity).

(* ------------------------------------------------------------------ *)
(** ** Data model: the rows of the four datasets *)

Module Channel.
Record t := {
  id : string;
  name : option string;
  alt_names : option (list string);
  country : option string;
  categories : option (list string);
  network : option string;
  owners : option (list string);
  website : option string;
  is_nsfw : option bool;
  launched : option string;
  closed : option string;
  replaced_by : option string
}.
End Channel.

Module Stream.
Record t := {
  channel : option string;
  feed : option string;
  url : string;
  quality : option string;
  title : option string;
  referrer : option string;
  user_agent : option string
}.
End Stream.

Module Logo.
Record t := {
  channel : option string;
  feed : option string;
  url : string;
  width : Z;
  height : Z;
  format : option string;
  tags : option (list string)
}.
End Logo.

Module Country.
Record t := {
  code : string;
  name : string;
  flag : string;
  languages : option (list string)
}.
End Country.

(** ** Requests *)

(** [req.query]: every parameter a handler destructures. *)
Module Query.
Record t := {
  q : option string;
  search : option string;
  country : option string;
  category : option string;
  nsfw : option string;
  hasStreams : option string;
  limit : option string;
  offset : option string
}.
End Query.

Record Request := {
  method : string;
  query : Query.t
}.

(** The remote static API: what each of the four documents parses to, or
    [None] when the fetch or the JSON parse fails. *)
Record Upstream := {
  up_channels : option (list Channel.t);
  up_streams : option (list Stream.t);
  up_logos : option (list Logo.t);
  up_countries : option (list Country.t)
}.

Definition url_channels := "https://iptv-org.github.io/api/channels.json".
Definition url_streams := "https://iptv-org.github.io/api/streams.json".
Definition url_logos := "https://iptv-org.github.io/api/logos.json".
Definition url_countries := "https://iptv-org.github.io/api/countries.json".

(* ------------------------------------------------------------------ *)
(** ** The join shared by [api/channels.js] (lines 35-68) and the strict
    search [unnamed/part_000] (lines 63-93): the two callbacks are the same
    text. *)

Module Catalog.

Record StreamOut := {
  url : string;
  quality : option string;
  title : option string;
  referrer : option string
}.

Record Enriched := {
  id : string;
  name : option string;
  alt_names : option (list string);
  country : option string;
  country_name : option string;
  country_flag : option string;
  categories : option (list string);
  network : option string;
  website : option string;
  is_nsfw : option bool;
  logo : option string;
  streams : list StreamOut
}.

(** [stream.channel === channel.id || stream.feed === channel.id] *)
Definition stream_matches (cid : string) (s : Stream.t) : bool :=
  Js.strict_eq (Stream.channel s) cid || Js.strict_eq (Stream.feed s) cid.

Definition stream_out (s : Stream.t) : StreamOut :=
  {| url := Stream.url s;
     quality := Stream.quality s;
     title := Stream.title s;
     referrer := Stream.referrer s |}.

(** [logo.channel === channel.id && !logo.feed] *)
Definition logo_matches_nofeed (cid : string) (l : Logo.t) : bool :=
  Js.strict_eq (Logo.channel l) cid && negb (Js.truthy (Logo.feed l)).

(** [logo.channel === channel.id] *)
Definition logo_matches (cid : string) (l : Logo.t) : bool :=
  Js.strict_eq (Logo.channel l) cid.

(** [logos.find(nofeed) || logos.find(any)]: a logo row is an object,
    hence truthy, so the second search runs only when the first found
    nothing. *)
Definition channelLogo (logos : list Logo.t) (cid : string) : option Logo.t :=
  match Js.find (logo_matches_nofeed cid) logos with
  | Some l => Some l
  | None => Js.find (logo_matches cid) logos
  end.

(** [countries.find(c => c.code === channel.country)] *)
Definition countryInfo (countries : list Country.t) (cc : option string)
  : option Country.t :=
  Js.find (fun c => Js.strict_eq cc (Country.code c)) countries.

Definition enrich (streams : list Stream.t) (logos : list Logo.t)
    (countries : list Country.t) (channel : Channel.t) : Enriched :=
  let channelStreams := filter (stream_matches (Channel.id channel)) streams in
  let channelLogo := channelLogo logos (Channel.id channel) in
  let countryInfo := countryInfo countries (Channel.country channel) in
  {| id := Channel.id channel;
     name := Channel.name channel;
     alt_names := Channel.alt_names channel;
     country := Channel.country channel;
     country_name := option_map Country.name countryInfo;
     country_flag := option_map Country.flag countryInfo;
     categories := Channel.categories channel;
     network := Channel.network channel;
     website := Channel.website channel;
     is_nsfw := Channel.is_nsfw channel;
     logo := option_map Logo.url channelLogo;
     streams := map stream_out channelStreams |}.

(** The bodies these two handlers send. *)
Inductive Body :=
| Empty                                   (* [res.status(200).end()] *)
| Failure (error : string)                (* [{success: false, error}] *)
| Channels (data : list Enriched) (total : nat)
                                          (* [{success: true, data, total}] *)
| Results (query : string) (data : list Enriched) (total : nat).
                                  (* [{success: true, query, data, total}] *)

Record Response := { status : nat; body : Body }.

(** [name.toLowerCase().includes(term)] on a name that must be a string. *)
Definition name_includes (n : option string) (term : string) : Js.result bool :=
  match n with
  | Some s => Js.Ok (Js.includes (Js.toLowerCase s) term)
  | None => Js.Throw
  end.

(** [alts.some(alt => alt.toLowerCase().includes(term))] *)
Definition some_includes (alts : list string) (term : string) : bool :=
  existsb (fun alt => Js.includes (Js.toLowerCase alt) term) alts.

(** [cats.includes(category.toLowerCase())] on a list that must be there. *)
Definition categories_include (cats : option (list string)) (category : string)
  : Js.result bool :=
  match cats with
  | Some l => Js.Ok (Js.arr_includes l (Js.toLowerCase category))
  | None => Js.Throw
  end.

(** [parseInt(limit)] where [limit] defaults to the number [dflt] when the
    parameter is undefined. *)
Definition parsed_limit (dflt : Z) (limit : option string) : Js.num :=
  match limit with
  | Some s => Js.parseInt s
  | None => Js.Int dflt
  end.

Definition internal_error : Response :=
  {| status := 500; body := Failure "Internal server error" |}.

End Catalog.

(* ------------------------------------------------------------------ *)
(** ** [api/channels.js]: the /channels handler *)

Module ChannelsApi.
Import Catalog.

(** Lines 73-77: [if (country) filter(channel.country === country.toUpperCase())] *)
Definition filter_country (country : option string) (l : list Enriched)
  : list Enriched :=
  match Js.or_null country with
  | Some c => filter (fun channel => Js.strict_eq (Catalog.country channel)
                                       (Js.toUpperCase c)) l
  | None => l
  end.

(** Lines 82-83: the callback of the text filter; [a || b] evaluates [b]
    only when [a] is false. *)
Definition search_matches (searchLower : string) (channel : Enriched)
  : Js.result bool :=
  nameMatch <- name_includes (name channel) searchLower ;;
  if nameMatch then Js.Ok true
  else match alt_names channel with
       | Some alts => Js.Ok (some_includes alts searchLower)
       | None => Js.Throw
       end.

(** Lines 79-85. *)
Definition filter_search (search : option string) (l : list Enriched)
  : Js.result (list Enriched) :=
  match Js.or_null search with
  | Some s => Js.filterM (search_matches (Js.toLowerCase s)) l
  | None => Js.Ok l
  end.

(** Lines 87-91. *)
Definition filter_category (category : option string) (l : list Enriched)
  : Js.result (list Enriched) :=
  match Js.or_null category with
  | Some c => Js.filterM (fun channel => categories_include (categories channel) c) l
  | None => Js.Ok l
  end.

(** Lines 71-91: the three filters, in the order of the source. *)
Definition filtered (qy : Query.t) (enrichedChannels : list Enriched)
  : Js.result (list Enriched) :=
  let filteredChannels := filter_country (Query.country qy) enrichedChannels in
  filteredChannels <- filter_search (Query.search qy) filteredChannels ;;
  filter_category (Query.category qy) filteredChannels.

(** Lines 35-100, once the four documents are there. *)
Definition respond (qy : Query.t) (channels : list Channel.t)
    (streams : list Stream.t) (logos : list Logo.t)
    (countries : list Country.t) : Js.result Response :=
  let enrichedChannels := map (enrich streams logos countries) channels in
  filteredChannels <- filtered qy enrichedChannels ;;
  let filteredChannels :=
    Js.slice filteredChannels (Js.Int 0) (parsed_limit 50 (Query.limit qy)) in
  Js.Ok {| status := 200;
           body := Channels filteredChannels (List.length filteredChannels) |}.

(** The four documents are awaited one after the other (lines 19-32): a
    failure stops the sequence.  The second component lists the URLs
    fetched. *)
Definition handler (req : Request) (up : Upstream) : Response * list string :=
  if method req =? "OPTIONS" then ({| status := 200; body := Empty |}, [])
  else
    match up_channels up with
    | None => (internal_error, [url_channels])
    | Some channels =>
    match up_streams up with
    | None => (internal_error, [url_channels; url_streams])
    | Some streams =>
    match up_logos up with
    | None => (internal_error, [url_channels; url_streams; url_logos])
    | Some logos =>
    let fetched := [url_channels; url_streams; url_logos; url_countries] in
    match up_countries up with
    | None => (internal_error, fetched)
    | Some countries =>
        match respond (query req) channels streams logos countries with
        | Js.Ok r => (r, fetched)
        | Js.Throw => (internal_error, fetched)
        end
    end end end end.

End ChannelsApi.

(* ------------------------------------------------------------------ *)
(** ** [unnamed/part_000]: the strict /search handler *)

Module StrictSearch.
Import Catalog.

(** Lines 41-48: [altMatch] is guarded by [channel.alt_names &&]. *)
Definition search_matches (searchTerm : string) (channel : Channel.t)
  : Js.result bool :=
  nameMatch <- name_includes (Channel.name channel) searchTerm ;;
  let altMatch := match Channel.alt_names channel with
                  | Some alts => some_includes alts searchTerm
                  | None => false
                  end in
  Js.Ok (nameMatch || altMatch).

(** Lines 51-53. *)
Definition filter_country (country : option string) (l : list Channel.t)
  : list Channel.t :=
  match Js.or_null country with
  | Some c => filter (fun channel => Js.strict_eq (Channel.country channel)
                                       (Js.toUpperCase c)) l
  | None => l
  end.

(** Lines 56-60. *)
Definition filter_category (category : option string) (l : list Channel.t)
  : Js.result (list Channel.t) :=
  match Js.or_null category with
  | Some c => Js.filterM (fun channel =>
                categories_include (Channel.categories channel) c) l
  | None => Js.Ok l
  end.

(** Lines 38-60: the channels that pass the filters. *)
Definition matching (qs : string) (qy : Query.t) (channels : list Channel.t)
  : Js.result (list Channel.t) :=
  let searchTerm := Js.toLowerCase qs in
  results <- Js.filterM (search_matches searchTerm) channels ;;
  let results := filter_country (Query.country qy) results in
  filter_category (Query.category qy) results.

(** Lines 38-100. *)
Definition respond (qs : string) (qy : Query.t) (channels : list Channel.t)
    (streams : list Stream.t) (logos : list Logo.t)
    (countries : list Country.t) : Js.result Response :=
  results <- matching qs qy channels ;;
  let enrichedResults :=
    map (enrich streams logos countries)
        (Js.slice results (Js.Int 0) (parsed_limit 20 (Query.limit qy))) in
  Js.Ok {| status := 200;
           body := Results qs enrichedResults (List.length enrichedResults) |}.

Definition bad_request : Response :=
  {| status := 400; body := Failure "Search query (q) is required" |}.

(** [Promise.all] starts the four fetches together (lines 26-31); the
    second component lists the URLs fetched. *)
Definition handler (req : Request) (up : Upstream) : Response * list string :=
  if method req =? "OPTIONS" then ({| status := 200; body := Empty |}, [])
  else
    match Js.or_null (Query.q (query req)) with
    | None => (bad_request, [])
    | Some qs =>
        let fetched := [url_channels; url_streams; url_logos; url_countries] in
        match up_channels up, up_streams up, up_logos up, up_countries up with
        | Some channels, Some streams, Some logos, Some countries =>
            match respond qs (query req) channels streams logos countries with
            | Js.Ok r => (r, fetched)
            | Js.Throw => (internal_error, fetched)
            end
        | _, _, _, _ => (internal_error, fetched)
        end
    end.

End StrictSearch.

(* ------------------------------------------------------------------ *)
(** ** [api/search.js]: the advanced /search handler *)

Module Search.

Module StreamOut.
Record t := {
  title : option string;
  url : string;
  quality : option string;
  referrer : option string;
  userAgent : option string;
  feed : option string
}.
End StreamOut.

Module LogoOut.
Record t := {
  url : string;
  width : Z;
  height : Z;
  format : option string;
  tags : list string;
  feed : option string
}.
End LogoOut.

Module Result.
Record t := {
  id : string;
  name : option string;
  alternativeNames : list string;
  network : option string;
  owners : list string;
  country : option string;
  categories : list string;
  isNsfw : bool;
  launched : option string;
  closed : option string;
  replacedBy : option string;
  website : option string;
  streamCount : nat;
  logoCount : nat;
  streams : list StreamOut.t;
  logos : list LogoOut.t
}.
End Result.

(** The bundled datasets [require]d at module level (lines 4-6). *)
Record Bundle := {
  channels : list Channel.t;
  streams : list Stream.t;
  logos : list Logo.t
}.

Definition stream_out (stream : Stream.t) : StreamOut.t :=
  {| StreamOut.title := Js.or_null (Stream.title stream);
     StreamOut.url := Stream.url stream;
     StreamOut.quality := Js.or_null (Stream.quality stream);
     StreamOut.referrer := Js.or_null (Stream.referrer stream);
     StreamOut.userAgent := Js.or_null (Stream.user_agent stream);
     StreamOut.feed := Js.or_null (Stream.feed stream) |}.

Definition logo_out (logo : Logo.t) : LogoOut.t :=
  {| LogoOut.url := Logo.url logo;
     LogoOut.width := Logo.width logo;
     LogoOut.height := Logo.height logo;
     LogoOut.format := Js.or_null (Logo.format logo);
     LogoOut.tags := Js.or_empty (Logo.tags logo);
     LogoOut.feed := Js.or_null (Logo.feed logo) |}.

(** Lines 30-66: the callback of [channels.map]. *)
Definition enrich (b : Bundle) (channel : Channel.t) : Result.t :=
  let channelStreams :=
    filter (fun s => Js.strict_eq (Stream.channel s) (Channel.id channel))
           (streams b) in
  let channelLogos :=
    filter (fun l => Js.strict_eq (Logo.channel l) (Channel.id channel))
           (logos b) in
  {| Result.id := Channel.id channel;
     Result.name := Channel.name channel;
     Result.alternativeNames := Js.or_empty (Channel.alt_names channel);
     Result.network := Js.or_null (Channel.network channel);
     Result.owners := Js.or_empty (Channel.owners channel);
     Result.country := Js.or_null (Channel.country channel);
     Result.categories := Js.or_empty (Channel.categories channel);
     Result.isNsfw := match Channel.is_nsfw channel with
                      | Some v => v
                      | None => false
                      end;
     Result.launched := Js.or_null (Channel.launched channel);
     Result.closed := Js.or_null (Channel.closed channel);
     Result.replacedBy := Js.or_null (Channel.replaced_by channel);
     Result.website := Js.or_null (Channel.website channel);
     Result.streamCount := List.length channelStreams;
     Result.logoCount := List.length channelLogos;
     Result.streams := map stream_out channelStreams;
     Result.logos := map logo_out channelLogos |}.

(** [v?.toLowerCase().includes(term)]: undefined, hence falsy, on null. *)
Definition opt_includes (v : option string) (term : string) : bool :=
  match v with
  | Some s => Js.includes (Js.toLowerCase s) term
  | None => false
  end.

Definition some_includes (l : list string) (term : string) : bool :=
  existsb (fun x => Js.includes (Js.toLowerCase x) term) l.

(** Lines 72-75, 81, 87, 93 and 97: the five callbacks. *)
Definition q_matches (searchLower : string) (c : Result.t) : bool :=
  opt_includes (Result.name c) searchLower ||
  some_includes (Result.alternativeNames c) searchLower ||
  opt_includes (Result.network c) searchLower ||
  some_includes (Result.owners c) searchLower.

Definition country_matches (country : string) (c : Result.t) : bool :=
  match Result.country c with
  | Some s => Js.toLowerCase s =? Js.toLowerCase country
  | None => false
  end.

Definition category_matches (category : string) (c : Result.t) : bool :=
  existsb (fun cat => Js.toLowerCase cat =? Js.toLowerCase category)
          (Result.categories c).

Definition nsfw_matches (nsfwValue : bool) (c : Result.t) : bool :=
  Bool.eqb (Result.isNsfw c) nsfwValue.

Definition has_streams (c : Result.t) : bool :=
  (0 <? Result.streamCount c)%nat.

(** Lines 68-98: each filter with its guard. *)
Definition filter_q (qy : Query.t) (results : list Result.t) : list Result.t :=
  match Js.or_null (Query.q qy) with
  | Some s => filter (q_matches (Js.toLowerCase s)) results
  | None => results
  end.

Definition filter_country (qy : Query.t) (results : list Result.t)
  : list Result.t :=
  match Js.or_null (Query.country qy) with
  | Some s => filter (country_matches s) results
  | None => results
  end.

Definition filter_category (qy : Query.t) (results : list Result.t)
  : list Result.t :=
  match Js.or_null (Query.category qy) with
  | Some s => filter (category_matches s) results
  | None => results
  end.

(** [if (nsfw !== undefined)]: an empty value still filters. *)
Definition filter_nsfw (qy : Query.t) (results : list Result.t)
  : list Result.t :=
  match Query.nsfw qy with
  | Some s => filter (nsfw_matches (s =? "true")) results
  | None => results
  end.

Definition filter_hasStreams (qy : Query.t) (results : list Result.t)
  : list Result.t :=
  match Query.hasStreams qy with
  | Some "true" => filter has_streams results
  | _ => results
  end.

(** Lines 30-101: the result list before pagination. *)
Definition filtered (b : Bundle) (qy : Query.t) : list Result.t :=
  let results := map (enrich b) (channels b) in
  let results := filter_q qy results in
  let results := filter_country qy results in
  let results := filter_category qy results in
  let results := filter_nsfw qy results in
  let results := filter_hasStreams qy results in
  Js.sort_desc Result.streamCount results.

Record Pagination := {
  total : nat;
  limit : Js.num;
  offset : Js.num;
  hasMore : bool
}.

Record Echo := {
  e_search : option string;
  e_country : option string;
  e_category : option string;
  e_nsfw : option string;
  e_hasStreams : option string
}.

Inductive Body :=
| Empty
| Page (timestamp : string) (pagination : Pagination) (query : Echo)
       (creator : string) (data : list Result.t).

Record Response := { status : nat; body : Body }.

(** [parseInt(limit)], [parseInt(offset)] with the defaults 50 and 0 of the
    destructuring (lines 25-26, 107-108). *)
Definition parsedLimit (qy : Query.t) : Js.num :=
  match Query.limit qy with
  | Some s => Js.parseInt s
  | None => Js.Int 50
  end.

Definition parsedOffset (qy : Query.t) : Js.num :=
  match Query.offset qy with
  | Some s => Js.parseInt s
  | None => Js.Int 0
  end.

(** Lines 104-119. *)
Definition paginate (qy : Query.t) (results : list Result.t)
  : Pagination * list Result.t :=
  let total := List.length results in
  let parsedLimit := parsedLimit qy in
  let parsedOffset := parsedOffset qy in
  let page := Js.slice results parsedOffset (Js.add parsedOffset parsedLimit) in
  ({| total := total;
      limit := parsedLimit;
      offset := parsedOffset;
      hasMore := Js.lt (Js.add parsedOffset parsedLimit)
                       (Js.Int (Z.of_nat total)) |},
   page).

(** [now] is [new Date().toISOString()].  On rows of the types above no
    callback of this file throws, so the [catch] branch is never taken. *)
Definition handler (b : Bundle) (now : string) (req : Request) : Response :=
  if method req =? "OPTIONS" then {| status := 200; body := Empty |}
  else
    let qy := query req in
    let '(pagination, results) := paginate qy (filtered b qy) in
    {| status := 200;
       body := Page now pagination
                 {| e_search := Js.or_null (Query.q qy);
                    e_country := Js.or_null (Query.country qy);
                    e_category := Js.or_null (Query.category qy);
                    e_nsfw := Js.or_null (Query.nsfw qy);
                    e_hasStreams := Js.or_null (Query.hasStreams qy) |}
                 "https://t.me/zerodevbro" results |}.

End Search.

(* ------------------------------------------------------------------ *)
(** ** [api/categories.js]: the /categories handler *)

Module Categories.

Module Ref.
Record t := { id : string; name : option string; country : option string }.
End Ref.

(** A value of [categoryMap]. *)
Module Cat.
Record t := { name : string; channelCount : nat; channels : list Ref.t }.
End Cat.

Module Entry.
Record t := {
  name : string;
  displayName : string;
  channelCount : nat;
  topChannels : list Ref.t
}.
End Entry.

(** [categoryMap]: a [Map] keeps its keys in insertion order. *)
Definition CategoryMap := list (string * Cat.t).

Fixpoint has (category : string) (m : CategoryMap) : bool :=
  match m with
  | [] => false
  | (k, _) :: r => (k =? category) || has category r
  end.

Fixpoint get (category : string) (m : CategoryMap) : option Cat.t :=
  match m with
  | [] => None
  | (k, v) :: r => if k =? category then Some v else get category r
  end.

(** [categoryMap.set(category, v)]: a new key goes last. *)
Fixpoint set (category : string) (v : Cat.t) (m : CategoryMap) : CategoryMap :=
  match m with
  | [] => [(category, v)]
  | (k, w) :: r => if k =? category then (k, v) :: r
                   else (k, w) :: set category v r
  end.

Definition ref (channel : Channel.t) : Ref.t :=
  {| Ref.id := Channel.id channel;
     Ref.name := Channel.name channel;
     Ref.country := Channel.country channel |}.

(** Lines 24-38: the body of the inner [forEach].  [cat] is the object held
    by the map, so the increment and the push change the map's entry. *)
Definition visit (channel : Channel.t) (m : CategoryMap) (category : string)
  : CategoryMap :=
  let m := if has category m then m
           else set category {| Cat.name := category;
                                Cat.channelCount := 0;
                                Cat.channels := [] |} m in
  match get category m with
  | Some cat =>
      set category {| Cat.name := Cat.name cat;
                      Cat.channelCount := S (Cat.channelCount cat);
                      Cat.channels := Cat.channels cat ++ [ref channel] |} m
  | None => m
  end.

(** Lines 19-41. *)
Definition build (channels : list Channel.t) : CategoryMap :=
  fold_left (fun m channel =>
               match Channel.categories channel with
               | Some cats => fold_left (visit channel) cats m
               | None => m
               end) channels [].

(** [name.charAt(0).toUpperCase() + name.slice(1)], for a name that starts
    with an ASCII character. *)
Definition displayName (name : string) : string :=
  match name with
  | EmptyString => EmptyString
  | String c r => String (Js.upper_ascii c) r
  end.

Definition entry (cat : Cat.t) : Entry.t :=
  {| Entry.name := Cat.name cat;
     Entry.displayName := displayName (Cat.name cat);
     Entry.channelCount := Cat.channelCount cat;
     Entry.topChannels := Js.slice (Cat.channels cat) (Js.Int 0) (Js.Int 5) |}.

(** Lines 44-51. *)
Definition categoriesData (channels : list Channel.t) : list Entry.t :=
  map entry (Js.sort_desc Cat.channelCount (map snd (build channels))).

Inductive Body :=
| Empty
| Listing (timestamp : string) (count totalChannels : nat) (creator : string)
          (data : list Entry.t).

Record Response := { status : nat; body : Body }.

(** [channels] is the bundled dataset [require]d at line 4 and [now] is
    [new Date().toISOString()]; nothing in the [try] block throws. *)
Definition handler (channels : list Channel.t) (now : string) (req : Request)
  : Response :=
  if method req =? "OPTIONS" then {| status := 200; body := Empty |}
  else
    let categoriesData := categoriesData channels in
    {| status := 200;
       body := Listing now (List.length categoriesData) (List.length channels)
                       "https://t.me/zerodevbro" categoriesData |}.

End Categories.

(* ------------------------------------------------------------------ *)
(** ** [api/countries.js], lines 1-103: the /countries handler on the
    bundled datasets *)

Module CountriesApi.

Module StreamOut.
Record t := { title : option string; url : string; quality : option string }.
End StreamOut.

Module LogoOut.
Record t := { url : string; width : Z; height : Z; format : option string }.
End LogoOut.

Module ChannelOut.
Record t := {
  id : string;
  name : option string;
  alternativeNames : list string;
  network : option string;
  categories : list string;
  isNsfw : bool;
  website : option string;
  streams : list StreamOut.t;
  logos : list LogoOut.t
}.
End ChannelOut.

(** An element of [countriesData]; [channels] is [None] when the property
    was never set on the object. *)
Module Entry.
Record t := {
  name : string;
  code : string;
  flag : string;
  languages : list string;
  channelCount : nat;
  channels : option (list ChannelOut.t)
}.
End Entry.

(** The four datasets [require]d at lines 4-7. *)
Record Bundle := {
  channels : list Channel.t;
  countries : list Country.t;
  streams : list Stream.t;
  logos : list Logo.t
}.

(** [req.query] as line 20 destructures it. *)
Record Params := {
  code : option string;
  includeChannels : option string
}.

Definition stream_out (stream : Stream.t) : StreamOut.t :=
  {| StreamOut.title := Js.or_null (Stream.title stream);
     StreamOut.url := Stream.url stream;
     StreamOut.quality := Js.or_null (Stream.quality stream) |}.

Definition logo_out (logo : Logo.t) : LogoOut.t :=
  {| LogoOut.url := Logo.url logo;
     LogoOut.width := Logo.width logo;
     LogoOut.height := Logo.height logo;
     LogoOut.format := Js.or_null (Logo.format logo) |}.

(** Lines 37-61: the callback of [countryChannels.map]. *)
Definition channel_out (b : Bundle) (channel : Channel.t) : ChannelOut.t :=
  let channelStreams :=
    filter (fun s => Js.strict_eq (Stream.channel s) (Channel.id channel))
           (streams b) in
  let channelLogos :=
    filter (fun l => Js.strict_eq (Logo.channel l) (Channel.id channel))
           (logos b) in
  {| ChannelOut.id := Channel.id channel;
     ChannelOut.name := Channel.name channel;
     ChannelOut.alternativeNames := Js.or_empty (Channel.alt_names channel);
     ChannelOut.network := Js.or_null (Channel.network channel);
     ChannelOut.categories := Js.or_empty (Channel.categories channel);
     ChannelOut.isNsfw := match Channel.is_nsfw channel with
                          | Some v => v
                          | None => false
                          end;
     ChannelOut.website := Js.or_null (Channel.website channel);
     ChannelOut.streams := map stream_out channelStreams;
     ChannelOut.logos := map logo_out channelLogos |}.

(** Line 24: [channels.filter(c => c.country === country.code)] *)
Definition countryChannels (b : Bundle) (country : Country.t) : list Channel.t :=
  filter (fun c => Js.strict_eq (Channel.country c) (Country.code country))
         (channels b).

(** Line 36: [includeChannels === 'true' || code === country.code] *)
Definition wants_channels (p : Params) (country : Country.t) : bool :=
  Js.strict_eq (includeChannels p) "true" ||
  Js.strict_eq (code p) (Country.code country).

(** Lines 23-65: the callback of [countries.map]. *)
Definition entry (b : Bundle) (p : Params) (country : Country.t) : Entry.t :=
  let countryChannels := countryChannels b country in
  {| Entry.name := Country.name country;
     Entry.code := Country.code country;
     Entry.flag := Country.flag country;
     Entry.languages := Js.or_empty (Country.languages country);
     Entry.channelCount := List.length countryChannels;
     Entry.channels :=
       if wants_channels p country
       then Some (map (channel_out b) countryChannels)
       else None |}.

(** Lines 68-72: [if (code) filter(c.code.toLowerCase() === code.toLowerCase())] *)
Definition filter_code (p : Params) (l : list Entry.t) : list Entry.t :=
  match Js.or_null (code p) with
  | Some c => filter (fun e => Js.toLowerCase (Entry.code e) =? Js.toLowerCase c) l
  | None => l
  end.

(** Lines 23-78. *)
Definition countriesData (b : Bundle) (p : Params) : list Entry.t :=
  let countriesData := map (entry b p) (countries b) in
  let countriesData := filter_code p countriesData in
  let countriesData :=
    filter (fun c => (0 <? Entry.channelCount c)%nat) countriesData in
  Js.sort_desc Entry.channelCount countriesData.

(** Line 84: [reduce((sum, c) => sum + c.channelCount, 0)] *)
Definition totalChannels (data : list Entry.t) : nat :=
  fold_left (fun sum c => (sum + Entry.channelCount c)%nat) data 0%nat.

Record Echo := { e_code : option string; e_includeChannels : bool }.

Inductive Body :=
| Empty
| Listing (timestamp : string) (count totalChannels : nat) (query : Echo)
          (creator : string) (data : list Entry.t).

Record Response := { status : nat; body : Body }.

(** [now] is [new Date().toISOString()]; on rows of the types above nothing
    in the [try] block throws. *)
Definition handler (b : Bundle) (now : string) (method : string) (p : Params)
  : Response :=
  if method =? "OPTIONS" then {| status := 200; body := Empty |}
  else
    let countriesData := countriesData b p in
    {| status := 200;
       body := Listing now (List.length countriesData)
                 (totalChannels countriesData)
                 {| e_code := Js.or_null (code p);
                    e_includeChannels := Js.strict_eq (includeChannels p) "true" |}
                 "https://t.me/zerodevbro" countriesData |}.

End CountriesApi.

(* ------------------------------------------------------------------ *)
(** ** [api/countries.js], lines 104-158: the /countries handler on the
    remote datasets *)

Module RemoteCountries.

(** The accumulator of the [reduce] at lines 126-131: the own properties of
    an object that starts as the literal [{}], in insertion order.  A lookup
    on the object also sees the members of [Object.prototype]; for every
    other key it sees the own properties only, and the model is of those
    keys. *)
Definition Counts := list (string * nat).

Fixpoint lookup (k : string) (acc : Counts) : option nat :=
  match acc with
  | [] => None
  | (k', n) :: r => if k' =? k then Some n else lookup k r
  end.

(** [acc[k] = n] *)
Fixpoint assign (k : string) (n : nat) (acc : Counts) : Counts :=
  match acc with
  | [] => [(k, n)]
  | (k', m) :: r => if k' =? k then (k', n) :: r else (k', m) :: assign k n r
  end.

(** [acc[k] || 0] *)
Definition or_zero (v : option nat) : nat :=
  match v with Some n => n | None => 0%nat end.

(** Lines 127-130: the callback of the [reduce]. *)
Definition count (acc : Counts) (channel : Channel.t) : Counts :=
  match Js.or_null (Channel.country channel) with
  | Some k => assign k (or_zero (lookup k acc) + 1)%nat acc
  | None => acc
  end.

Definition countryCounts (channels : list Channel.t) : Counts :=
  fold_left count channels [].

Record Entry := {
  code : string;
  name : string;
  flag : string;
  channel_count : nat;
  languages : option (list string)
}.

(** Lines 134-143. *)
Definition countriesWithCounts (channels : list Channel.t)
    (countries : list Country.t) : list Entry :=
  let countryCounts := countryCounts channels in
  Js.sort_desc channel_count
    (map (fun country =>
            {| code := Country.code country;
               name := Country.name country;
               flag := Country.flag country;
               channel_count := or_zero (lookup (Country.code country) countryCounts);
               languages := Country.languages country |})
         (filter (fun country =>
                    (0 <? or_zero (lookup (Country.code country) countryCounts))%nat)
                 countries)).

Inductive Body :=
| Empty
| Failure (error : string)
| Listing (data : list Entry) (total : nat).

Record Response := { status : nat; body : Body }.

(** The two documents are awaited one after the other (lines 119-123); the
    second component lists the URLs fetched. *)
Definition handler (method : string) (up : Upstream) : Response * list string :=
  if method =? "OPTIONS" then ({| status := 200; body := Empty |}, [])
  else
    match up_channels up with
    | None => ({| status := 500; body := Failure "Internal server error" |},
               [url_channels])
    | Some channels =>
    match up_countries up with
    | None => ({| status := 500; body := Failure "Internal server error" |},
               [url_channels; url_countries])
    | Some countries =>
        let countriesWithCounts := countriesWithCounts channels countries in
        ({| status := 200;
            body := Listing countriesWithCounts
                            (List.length countriesWithCounts) |},
         [url_channels; url_countries])
    end end.

End RemoteCountries.

(* ------------------------------------------------------------------ *)
(** ** [api/countries.js], lines 159-253: the /channels handler on the
    bundled datasets *)

Module BundledChannels.

Module StreamOut.
Record t := {
  title : option string;
  url : string;
  quality : option string;
  referrer : option string;
  userAgent : option string
}.
End StreamOut.

Module LogoOut.
Record t := {
  url : string;
  width : Z;
  height : Z;
  format : option string;
  tags : list string
}.
End LogoOut.

Module Result.
Record t := {
  id : string;
  name : option string;
  alternativeNames : list string;
  network : option string;
  owners : list string;
  country : option string;
  categories : list string;
  isNsfw : bool;
  launched : option string;
  closed : option string;
  replacedBy : option string;
  website : option string;
  streams : list StreamOut.t;
  logos : list LogoOut.t
}.
End Result.

Definition stream_out (stream : Stream.t) : StreamOut.t :=
  {| StreamOut.title := Js.or_null (Stream.title stream);
     StreamOut.url := Stream.url stream;
     StreamOut.quality := Js.or_null (Stream.quality stream);
     StreamOut.referrer := Js.or_null (Stream.referrer stream);
     StreamOut.userAgent := Js.or_null (Stream.user_agent stream) |}.

Definition logo_out (logo : Logo.t) : LogoOut.t :=
  {| LogoOut.url := Logo.url logo;
     LogoOut.width := Logo.width logo;
     LogoOut.height := Logo.height logo;
     LogoOut.format := Js.or_null (Logo.format logo);
     LogoOut.tags := Js.or_empty (Logo.tags logo) |}.

(** Lines 180-212: the callback of [channels.map], on the datasets
    [require]d at lines 162-164. *)
Definition enrich (b : Search.Bundle) (channel : Channel.t) : Result.t :=
  let channelStreams :=
    filter (fun s => Js.strict_eq (Stream.channel s) (Channel.id channel))
           (Search.streams b) in
  let channelLogos :=
    filter (fun l => Js.strict_eq (Logo.channel l) (Channel.id channel))
           (Search.logos b) in
  {| Result.id := Channel.id channel;
     Result.name := Channel.name channel;
     Result.alternativeNames := Js.or_empty (Channel.alt_names channel);
     Result.network := Js.or_null (Channel.network channel);
     Result.owners := Js.or_empty (Channel.owners channel);
     Result.country := Js.or_null (Channel.country channel);
     Result.categories := Js.or_empty (Channel.categories channel);
     Result.isNsfw := match Channel.is_nsfw channel with
                      | Some v => v
                      | None => false
                      end;
     Result.launched := Js.or_null (Channel.launched channel);
     Result.closed := Js.or_null (Channel.closed channel);
     Result.replacedBy := Js.or_null (Channel.replaced_by channel);
     Result.website := Js.or_null (Channel.website channel);
     Result.streams := map stream_out channelStreams;
     Result.logos := map logo_out channelLogos |}.

(** Line 217: [c.country?.toLowerCase() === country.toLowerCase()] *)
Definition country_matches (country : string) (c : Result.t) : bool :=
  match Result.country c with
  | Some s => Js.toLowerCase s =? Js.toLowerCase country
  | None => false
  end.

(** Lines 225-227: name, alternative names and network; not the owners. *)
Definition search_matches (searchLower : string) (c : Result.t) : bool :=
  Search.opt_includes (Result.name c) searchLower ||
  Search.some_includes (Result.alternativeNames c) searchLower ||
  Search.opt_includes (Result.network c) searchLower.

(** Lines 180-229. *)
Definition results (b : Search.Bundle) (qy : Query.t) : list Result.t :=
  let results := map (enrich b) (Search.channels b) in
  let results :=
    match Js.or_null (Query.country qy) with
    | Some c => filter (country_matches c) results
    | None => results
    end in
  match Js.or_null (Query.search qy) with
  | Some s => filter (search_matches (Js.toLowerCase s)) results
  | None => results
  end.

Record Echo := { e_search : option string; e_country : option string }.

Inductive Body :=
| Empty
| Listing (timestamp : string) (count : nat) (query : Echo) (creator : string)
          (data : list Result.t).

Record Response := { status : nat; body : Body }.

(** [now] is [new Date().toISOString()]; on rows of the types above nothing
    in the [try] block throws. *)
Definition handler (b : Search.Bundle) (now : string) (req : Request)
  : Response :=
  if method req =? "OPTIONS" then {| status := 200; body := Empty |}
  else
    let results := results b (query req) in
    {| status := 200;
       body := Listing now (List.length results)
                 {| e_search := Js.or_null (Query.search (query req));
                    e_country := Js.or_null (Query.country (query req)) |}
                 "https://t.me/zerodevbro" results |}.

End BundledChannels.

(* ------------------------------------------------------------------ *)
(** ** Vocabulary of the specification and of the proofs *)

Module Spec.

(** [Kept P l l']: [l'] consists of exactly the elements of [l] that
    satisfy [P], each as often as in [l] and in the same relative order. *)
Inductive Kept {A : Type} (P : A -> Prop) : list A -> list A -> Prop :=
| Kept_nil : Kept P [] []
| Kept_take x l l' : P x -> Kept P l l' -> Kept P (x :: l) (x :: l')
| Kept_skip x l l' : ~ P x -> Kept P l l' -> Kept P (x :: l) l'.

(** [First P l x]: [x] is the first element of [l], in list order, that
    satisfies [P]. *)
Definition First {A : Type} (P : A -> Prop) (l : list A) (x : A) : Prop :=
  exists before after,
    l = before ++ x :: after /\ P x /\ forall y, In y before -> ~ P y.

(** Equality of two strings up to letter case. *)
Definition equal_ignoring_case (a b : string) : Prop :=
  Js.toLowerCase a = Js.toLowerCase b.

(** A stored code written without lower-case letters. *)
Definition upper_case (s : string) : Prop := Js.toUpperCase s = s.

(** A stream row keyed to a channel by its [channel] or [feed] field. *)
Definition keyed_by_channel (cid : string) (s : Stream.t) : Prop :=
  Stream.channel s = Some cid.

Definition keyed_by_channel_or_feed (cid : string) (s : Stream.t) : Prop :=
  Stream.channel s = Some cid \/ Stream.feed s = Some cid.

(** A logo row of a channel. *)
Definition logo_of (cid : string) (l : Logo.t) : Prop :=
  Logo.channel l = Some cid.

(** A logo row scoped to a feed: its [feed] is a non-empty string. *)
Definition feed_specific (l : Logo.t) : Prop :=
  exists f, Logo.feed l = Some f /\ f <> "".

(** [offset + limit < total] on numbers: false as soon as one is [NaN]. *)
Definition sum_below (offset limit : Js.num) (total : nat) : Prop :=
  exists o l, offset = Js.Int o /\ limit = Js.Int l /\
              (o + l < Z.of_nat total)%Z.

(** The four order-insensitive filters of the advanced search. *)
Inductive FilterKind := TextSearch | ByCountry | ByCategory | ByNsfw.

Definition apply (k : FilterKind) : Query.t -> list Search.Result.t ->
                                    list Search.Result.t :=
  match k with
  | TextSearch => Search.filter_q
  | ByCountry => Search.filter_country
  | ByCategory => Search.filter_category
  | ByNsfw => Search.filter_nsfw
  end.

(** The (channel, category) pairs that the two nested loops of
    [Categories.build] visit, in order. *)
Definition visits (channels : list Channel.t) : list (Channel.t * string) :=
  flat_map (fun c => map (pair c) (Js.or_empty (Channel.categories c))) channels.

(** The references pushed under [category] along a sequence of visits. *)
Definition pushed (category : string) (vs : list (Channel.t * string))
  : list Categories.Ref.t :=
  map (fun v => Categories.ref (fst v))
      (filter (fun v => snd v =? category) vs).

(** What holds of [categoryMap] after the visits [vs]: its keys are distinct,
    and the entry of a category holds its name, the references pushed under
    it and their number; a category without entry was never visited. *)
Definition map_tracks (m : Categories.CategoryMap)
    (vs : list (Channel.t * string)) : Prop :=
  NoDup (map fst m) /\
  forall k,
    match Categories.get k m with
    | Some cat =>
        Categories.Cat.name cat = k /\
        Categories.Cat.channels cat = pushed k vs /\
        Categories.Cat.channelCount cat
        = List.length (Categories.Cat.channels cat)
    | None => pushed k vs = []
    end.

(** The boolean test of [lists] below. *)
Definition lists_b (category : string) (c : Channel.t) : bool :=
  match Channel.categories c with
  | Some cats => existsb (String.eqb category) cats
  | None => false
  end.

(** A channel lists a category. *)
Definition lists (category : string) (c : Channel.t) : Prop :=
  exists cats, Channel.categories c = Some cats /\ In category cats.

(** The data model's reading of [categories]: a set, so no category occurs
    twice in one channel. *)
Definition categories_are_sets (channels : list Channel.t) : Prop :=
  forall c cats, In c channels -> Channel.categories c = Some cats ->
                 NoDup cats.

(** [sub] occurs in [s]. *)
Definition contains (s sub : string) : Prop :=
  exists pre post, s = (pre ++ sub ++ post)%string.

(** [q] occurs in [field] up to letter case. *)
Definition contains_ignoring_case (field q : string) : Prop :=
  contains (Js.toLowerCase field) (Js.toLowerCase q).

(** A callback returned [true] (and did not throw). *)
Definition holds (r : Js.result bool) : bool :=
  match r with
  | Js.Ok true => true
  | _ => false
  end.

(** A list in decreasing order of [key] (equal keys allowed). *)
Definition descending {A : Type} (key : A -> nat) (l : list A) : Prop :=
  StronglySorted (fun a b => (key b <= key a)%nat) l.

(** The four documents in the order /channels awaits them. *)
Definition documents : list string :=
  [url_channels; url_streams; url_logos; url_countries].

(** The names an object literal inherits from [Object.prototype]. *)
Definition prototype_members : list string :=
  ["constructor"; "__defineGetter__"; "__defineSetter__"; "hasOwnProperty";
   "__lookupGetter__"; "__lookupSetter__"; "isPrototypeOf";
   "propertyIsEnumerable"; "toString"; "valueOf"; "__proto__";
   "toLocaleString"].

(** No country code of the two documents is such a name, so that a lookup on
    the accumulator of [RemoteCountries.count] sees own properties only. *)
Definition plain_keys (channels : list Channel.t) (countries : list Country.t)
  : Prop :=
  (forall c k, In c channels -> Channel.country c = Some k ->
               ~ In k prototype_members) /\
  (forall c, In c countries -> ~ In (Country.code c) prototype_members).

(** The text search of the advanced search finds [q] in a result. *)
Definition found_in (q : string) (c : Search.Result.t) : Prop :=
  (exists n, Search.Result.name c = Some n /\ contains_ignoring_case n q) \/
  (exists a, In a (Search.Result.alternativeNames c) /\
             contains_ignoring_case a q) \/
  (exists n, Search.Result.network c = Some n /\ contains_ignoring_case n q) \/
  (exists o, In o (Search.Result.owners c) /\ contains_ignoring_case o q).

(** The sum of the [channelCount]s held by a category map. *)
Definition counted (m : Categories.CategoryMap) : nat :=
  list_sum (map (fun kv => Categories.Cat.channelCount (snd kv)) m).

(** A string of ASCII characters only.  On such strings [Js.toUpperCase] and
    [Js.toLowerCase] are the case mappings of JavaScript exactly. *)
Fixpoint ascii_only (s : string) : Prop :=
  match s with
  | EmptyString => True
  | String c r => (nat_of_ascii c < 128)%nat /\ ascii_only r
  end.

(** A number in the range where the integers of [Js.num] are the numbers of
    JavaScript exactly: [NaN], or an integer of absolute value at most
    2^53. *)
Definition safe (n : Js.num) : Prop :=
  match n with
  | Js.NaN => True
  | Js.Int z => (- 2 ^ 53 <= z <= 2 ^ 53)%Z
  end.

(** The reference [categories.js] pushes for a channel (lines 33-37). *)
Definition reference (c : Channel.t) : Categories.Ref.t :=
  {| Categories.Ref.id := Channel.id c;
     Categories.Ref.name := Channel.name c;
     Categories.Ref.country := Channel.country c |}.

End Spec.

(* ------------------------------------------------------------------ *)
(** ** Sample rows *)

Module Sample.

Definition channel (id name : string) (country : option string)
    (categories : list string) : Channel.t :=
  {| Channel.id := id;
     Channel.name := Some name;
     Channel.alt_names := Some [];
     Channel.country := country;
     Channel.categories := Some categories;
     Channel.network := None;
     Channel.owners := Some [];
     Channel.website := None;
     Channel.is_nsfw := Some false;
     Channel.launched := None;
     Channel.closed := None;
     Channel.replaced_by := None |}.

Definition stream (channel feed : option string) (url : string) : Stream.t :=
  {| Stream.channel := channel;
     Stream.feed := feed;
     Stream.url := url;
     Stream.quality := None;
     Stream.title := None;
     Stream.referrer := None;
     Stream.user_agent := None |}.

Definition logo (channel feed : option string) (url : string) : Logo.t :=
  {| Logo.channel := channel;
     Logo.feed := feed;
     Logo.url := url;
     Logo.width := 512;
     Logo.height := 512;
     Logo.format := Some "PNG";
     Logo.tags := Some [] |}.

Definition uk : Country.t :=
  {| Country.code := "UK";
     Country.name := "United Kingdom";
     Country.flag := "GB";
     Country.languages := Some ["eng"] |}.

Definition no_query : Query.t :=
  {| Query.q := None; Query.search := None; Query.country := None;
     Query.category := None; Query.nsfw := None; Query.hasStreams := None;
     Query.limit := None; Query.offset := None |}.

Definition with_q (s : string) (qy : Query.t) : Query.t :=
  {| Query.q := Some s; Query.search := Query.search qy;
     Query.country := Query.country qy; Query.category := Query.category qy;
     Query.nsfw := Query.nsfw qy; Query.hasStreams := Query.hasStreams qy;
     Query.limit := Query.limit qy; Query.offset := Query.offset qy |}.

Definition with_limit (s : string) (qy : Query.t) : Query.t :=
  {| Query.q := Query.q qy; Query.search := Query.search qy;
     Query.country := Query.country qy; Query.category := Query.category qy;
     Query.nsfw := Query.nsfw qy; Query.hasStreams := Query.hasStreams qy;
     Query.limit := Some s; Query.offset := Query.offset qy |}.

Definition with_offset (s : string) (qy : Query.t) : Query.t :=
  {| Query.q := Query.q qy; Query.search := Query.search qy;
     Query.country := Query.country qy; Query.category := Query.category qy;
     Query.nsfw := Query.nsfw qy; Query.hasStreams := Query.hasStreams qy;
     Query.limit := Query.limit qy; Query.offset := Some s |}.

Definition with_country (s : string) (qy : Query.t) : Query.t :=
  {| Query.q := Query.q qy; Query.search := Query.search qy;
     Query.country := Some s; Query.category := Query.category qy;
     Query.nsfw := Query.nsfw qy; Query.hasStreams := Query.hasStreams qy;
     Query.limit := Query.limit qy; Query.offset := Query.offset qy |}.

Definition get (qy : Query.t) : Request := {| method := "GET"; query := qy |}.

Definition bbc_one := channel "BBCOne.uk" "BBC One" (Some "UK") ["general"].
Definition bbc_two := channel "BBCTwo.uk" "BBC Two" (Some "UK") ["general"].
Definition bbc_news := channel "BBCNews.uk" "BBC News" (Some "UK") ["news"].
Definition lower_cased := channel "TVP1.pl" "TVP 1" (Some "pl") ["general"].

Definition bbc : list Channel.t := [bbc_one; bbc_two; bbc_news].

(** Seven channels of the "news" category, and one that lists it twice. *)
Definition seven_news : list Channel.t :=
  map (fun n => channel n n (Some "UK") ["news"])
      ["n1"; "n2"; "n3"; "n4"; "n5"; "n6"; "n7"].

Definition news_twice := channel "n0" "n0" (Some "UK") ["news"; "news"].

Definition general_entry : Categories.Entry.t :=
  {| Categories.Entry.name := "general";
     Categories.Entry.displayName := "General";
     Categories.Entry.channelCount := 2;
     Categories.Entry.topChannels :=
       [Categories.ref bbc_one; Categories.ref bbc_two] |}.

(** A stream row that names the channel in its [feed] key only. *)
Definition feed_keyed : Stream.t :=
  stream None (Some "BBCOne.uk") "http://a/feed.m3u8".

Definition bundle (streams : list Stream.t) : Search.Bundle :=
  {| Search.channels := bbc; Search.streams := streams; Search.logos := [] |}.

Definition regional_logo := logo (Some "BBCOne.uk") (Some "London") "http://a/london.png".
Definition plain_logo := logo (Some "BBCOne.uk") None "http://a/plain.png".

Definition upstream (channels : list Channel.t) : Upstream :=
  {| up_channels := Some channels;
     up_streams := Some [stream (Some "BBCOne.uk") None "http://a/1.m3u8"];
     up_logos := Some [logo (Some "BBCOne.uk") None "http://a/1.png"];
     up_countries := Some [uk] |}.

Definition with_category (s : string) (qy : Query.t) : Query.t :=
  {| Query.q := Query.q qy; Query.search := Query.search qy;
     Query.country := Query.country qy; Query.category := Some s;
     Query.nsfw := Query.nsfw qy; Query.hasStreams := Query.hasStreams qy;
     Query.limit := Query.limit qy; Query.offset := Query.offset qy |}.

Definition with_search (s : string) (qy : Query.t) : Query.t :=
  {| Query.q := Query.q qy; Query.search := Some s;
     Query.country := Query.country qy; Query.category := Query.category qy;
     Query.nsfw := Query.nsfw qy; Query.hasStreams := Query.hasStreams qy;
     Query.limit := Query.limit qy; Query.offset := Query.offset qy |}.

Definition with_nsfw (s : string) (qy : Query.t) : Query.t :=
  {| Query.q := Query.q qy; Query.search := Query.search qy;
     Query.country := Query.country qy; Query.category := Query.category qy;
     Query.nsfw := Some s; Query.hasStreams := Query.hasStreams qy;
     Query.limit := Query.limit qy; Query.offset := Query.offset qy |}.



(** A channel row without a name. *)
Definition nameless : Channel.t :=
  {| Channel.id := "X.uk";
     Channel.name := None;
     Channel.alt_names := Some [];
     Channel.country := Some "UK";
     Channel.categories := Some [];
     Channel.network := None;
     Channel.owners := Some [];
     Channel.website := None;
     Channel.is_nsfw := Some false;
     Channel.launched := None;
     Channel.closed := None;
     Channel.replaced_by := None |}.

(** The bundled datasets of /countries: the sample channels and one country. *)
Definition atlas : CountriesApi.Bundle :=
  {| CountriesApi.channels := bbc;
     CountriesApi.countries := [uk];
     CountriesApi.streams := [];
     CountriesApi.logos := [] |}.

Definition by_code (s : string) : CountriesApi.Params :=
  {| CountriesApi.code := Some s; CountriesApi.includeChannels := None |}.

Definition all_countries : CountriesApi.Params :=
  {| CountriesApi.code := None; CountriesApi.includeChannels := None |}.

End Sample.

(* ------------------------------------------------------------------ *)
(** * Properties *)

(** ** Lemmas on the primitives *)

Lemma upper_lower_ascii (c : ascii) :
  Js.upper_ascii (Js.lower_ascii c) = Js.upper_ascii c.
Proof. destruct c as [[] [] [] [] [] [] [] []]; reflexivity. Qed.

Lemma lower_upper_ascii (c : ascii) :
  Js.lower_ascii (Js.upper_ascii c) = Js.lower_ascii c.
Proof. destruct c as [[] [] [] [] [] [] [] []]; reflexivity. Qed.

Lemma toUpperCase_toLowerCase (s : string) :
  Js.toUpperCase (Js.toLowerCase s) = Js.toUpperCase s.
Proof.
  induction s as [|c r IH]; simpl; [reflexivity|].
  now rewrite upper_lower_ascii, IH.
Qed.

Lemma toLowerCase_toUpperCase (s : string) :
  Js.toLowerCase (Js.toUpperCase s) = Js.toLowerCase s.
Proof.
  induction s as [|c r IH]; simpl; [reflexivity|].
  now rewrite lower_upper_ascii, IH.
Qed.

(** For a stored code in upper case, being the upper-cased parameter and
    being the parameter up to letter case are the same thing. *)
Lemma upper_case_equal_ignoring_case (s p : string) :
  Spec.upper_case s ->
  (s = Js.toUpperCase p <-> Spec.equal_ignoring_case s p).
Proof.
  unfold Spec.upper_case, Spec.equal_ignoring_case. intros Hs. split.
  - intros ->. apply toLowerCase_toUpperCase.
  - intros H. rewrite <- Hs, <- toUpperCase_toLowerCase, H.
    apply toUpperCase_toLowerCase.
Qed.

Lemma strict_eq_true (o : option string) (s : string) :
  Js.strict_eq o s = true <-> o = Some s.
Proof.
  destruct o as [t|]; simpl.
  - rewrite String.eqb_eq. split; congruence.
  - split; discriminate.
Qed.

Lemma or_null_Some (o : option string) (s : string) :
  Js.or_null o = Some s <-> o = Some s /\ s <> "".
Proof.
  unfold Js.or_null, Js.truthy. destruct o as [t|].
  - destruct (String.eqb_spec t ""); simpl; split.
    + discriminate.
    + intros [E N]. congruence.
    + intros E. injection E as ->. auto.
    + intros [E _]. exact E.
  - split; [discriminate | intros [E _]; discriminate].
Qed.

Lemma or_null_None (o : option string) :
  Js.or_null o = None <-> o = None \/ o = Some "".
Proof.
  unfold Js.or_null, Js.truthy. destruct o as [t|].
  - destruct (String.eqb_spec t ""); simpl; split.
    + subst. auto.
    + reflexivity.
    + discriminate.
    + intros [E|E]; congruence.
  - split; auto.
Qed.

(** ** Lemmas on lists *)

Section Lists.
Variable A : Type.

Lemma filter_Kept (P : A -> Prop) (f : A -> bool) (l : list A) :
  (forall x, f x = true <-> P x) -> Spec.Kept P l (filter f l).
Proof.
  intros H. induction l as [|x r IH]; simpl.
  - constructor.
  - destruct (f x) eqn:E.
    + apply Spec.Kept_take; [now apply H | exact IH].
    + apply Spec.Kept_skip; [|exact IH].
      intros Px. apply H in Px. congruence.
Qed.

Lemma Kept_In (P : A -> Prop) (l l' : list A) :
  Spec.Kept P l l' -> forall x, In x l' <-> In x l /\ P x.
Proof.
  induction 1 as [|x l l' Px _ IH|x l l' Px _ IH]; intros y; simpl.
  - tauto.
  - rewrite IH. split.
    + intros [->|[? ?]]; auto.
    + intros [[->|?] ?]; auto.
  - rewrite IH. split.
    + intros [? ?]; auto.
    + intros [[->|?] ?]; [contradiction | auto].
Qed.

Lemma Kept_functional (P : A -> Prop) (l l1 l2 : list A) :
  Spec.Kept P l l1 -> Spec.Kept P l l2 -> l1 = l2.
Proof.
  intros H. revert l2.
  induction H; intros l2 H2; inversion H2; subst;
    try contradiction; try reflexivity.
  - f_equal. auto.
  - auto.
Qed.

Lemma filter_comm (f g : A -> bool) (l : list A) :
  filter f (filter g l) = filter g (filter f l).
Proof.
  induction l as [|x r IH]; simpl; [reflexivity|].
  destruct (f x) eqn:F, (g x) eqn:G; simpl; rewrite ?F, ?G, IH; reflexivity.
Qed.

Lemma find_First (P : A -> Prop) (f : A -> bool) (l : list A) (x : A) :
  (forall y, f y = true <-> P y) ->
  Spec.First P l x -> List.find f l = Some x.
Proof.
  intros H (before & after & -> & Px & Hb).
  induction before as [|b r IH]; simpl.
  - apply H in Px. now rewrite Px.
  - destruct (f b) eqn:E.
    + apply H in E. exfalso. apply (Hb b); simpl; auto.
    + apply IH. intros y Hy. apply Hb. simpl; auto.
Qed.

Lemma find_none_iff (f : A -> bool) (l : list A) :
  List.find f l = None <-> forall y, In y l -> f y = false.
Proof.
  split.
  - intros H y Hy. exact (find_none f l H y Hy).
  - induction l as [|x r IH]; simpl; intros H; [reflexivity|].
    rewrite (H x) by auto. apply IH. intros y Hy. apply H. auto.
Qed.

Lemma slice_from_zero (l : list A) (n : Z) :
  (0 <= n)%Z -> Js.slice l (Js.Int 0) (Js.Int n) = firstn (Z.to_nat n) l.
Proof.
  intros Hn. unfold Js.slice, Js.to_integer.
  assert (E0 : Js.rel_index (Z.of_nat (List.length l)) 0 = 0%Z).
  { unfold Js.rel_index. simpl. lia. }
  rewrite E0. simpl skipn. rewrite Z.sub_0_r. unfold Js.rel_index.
  destruct (Z.ltb_spec n 0); [lia|].
  destruct (Z.min_spec n (Z.of_nat (List.length l))) as [[Hlt ->]|[Hge ->]].
  - reflexivity.
  - rewrite Nat2Z.id, !firstn_all2; auto; lia.
Qed.


Lemma slice_length_le (l : list A) (a b : Js.num) :
  (List.length (Js.slice l a b) <= List.length l)%nat.
Proof.
  unfold Js.slice. rewrite length_firstn, length_skipn. lia.
Qed.

End Lists.

Lemma toUpperCase_idempotent (s : string) :
  Js.toUpperCase (Js.toUpperCase s) = Js.toUpperCase s.
Proof.
  rewrite <- (toUpperCase_toLowerCase (Js.toUpperCase s)).
  rewrite toLowerCase_toUpperCase. apply toUpperCase_toLowerCase.
Qed.

(* ------------------------------------------------------------------ *)
(** ** The country filter of /channels and of the strict search *)

Lemma strict_country_filter_Kept (p : string) (l : list Channel.t) :
  p <> "" ->
  Spec.Kept (fun c => Channel.country c = Some (Js.toUpperCase p)) l
            (StrictSearch.filter_country (Some p) l).
Proof.
  intros Hp. unfold StrictSearch.filter_country.
  rewrite (proj2 (or_null_Some (Some p) p)) by auto.
  apply filter_Kept. intros c. apply strict_eq_true.
Qed.

Lemma channels_country_filter_Kept (p : string) (l : list Catalog.Enriched) :
  p <> "" ->
  Spec.Kept (fun c => Catalog.country c = Some (Js.toUpperCase p)) l
            (ChannelsApi.filter_country (Some p) l).
Proof.
  intros Hp. unfold ChannelsApi.filter_country.
  rewrite (proj2 (or_null_Some (Some p) p)) by auto.
  apply filter_Kept. intros c. apply strict_eq_true.
Qed.

(** C1, as the code has it.  For a non-empty [country] parameter, the country
    filter of the /channels handler and of the strict search keeps exactly
    the channels whose [country] field is the upper-cased parameter, in
    dataset order.  For a parameter of ASCII characters: among the channels
    whose stored code is ASCII and in upper case these are exactly the
    channels whose code equals the parameter up to letter case, and a channel
    whose stored code is not in upper case is never kept. *)
Theorem country_filter_upper_cases_the_parameter :
  forall (p : string) (raw : list Channel.t) (enriched : list Catalog.Enriched),
    p <> "" ->
    Spec.Kept (fun c => Channel.country c = Some (Js.toUpperCase p)) raw
              (StrictSearch.filter_country (Some p) raw) /\
    Spec.Kept (fun c => Catalog.country c = Some (Js.toUpperCase p)) enriched
              (ChannelsApi.filter_country (Some p) enriched) /\
    (Spec.ascii_only p ->
     (forall c s, Channel.country c = Some s ->
        Spec.ascii_only s -> Spec.upper_case s ->
        (In c (StrictSearch.filter_country (Some p) raw) <->
         In c raw /\ Spec.equal_ignoring_case s p)) /\
     (forall c s, Catalog.country c = Some s ->
        Spec.ascii_only s -> Spec.upper_case s ->
        (In c (ChannelsApi.filter_country (Some p) enriched) <->
         In c enriched /\ Spec.equal_ignoring_case s p)) /\
     (forall c s, Channel.country c = Some s -> ~ Spec.upper_case s ->
        ~ In c (StrictSearch.filter_country (Some p) raw)) /\
     (forall c s, Catalog.country c = Some s -> ~ Spec.upper_case s ->
        ~ In c (ChannelsApi.filter_country (Some p) enriched))).
Proof.
  intros p raw enriched Hp.
  pose proof (strict_country_filter_Kept raw Hp) as Kr.
  pose proof (channels_country_filter_Kept enriched Hp) as Ke.
  pose proof (Kept_In Kr) as Ir. pose proof (Kept_In Ke) as Ie.
  split; [exact Kr|]. split; [exact Ke|]. intros _.
  split; [|split; [|split]].
  - intros c s Hc _ Hs. rewrite Ir, Hc.
    rewrite <- (upper_case_equal_ignoring_case p Hs).
    split; intros [Hin E]; split; congruence.
  - intros c s Hc _ Hs. rewrite Ie, Hc.
    rewrite <- (upper_case_equal_ignoring_case p Hs).
    split; intros [Hin E]; split; congruence.
  - intros c s Hc Hs H. apply Ir in H as [_ Hc']. apply Hs.
    unfold Spec.upper_case. rewrite Hc in Hc'. injection Hc' as ->.
    apply toUpperCase_idempotent.
  - intros c s Hc Hs H. apply Ie in H as [_ Hc']. apply Hs.
    unfold Spec.upper_case. rewrite Hc in Hc'. injection Hc' as ->.
    apply toUpperCase_idempotent.
Qed.

Lemma country_filter_on_sample :
  "uk" <> "" /\
  Spec.Kept (fun c => Channel.country c = Some (Js.toUpperCase "uk"))
            Sample.bbc (StrictSearch.filter_country (Some "uk") Sample.bbc).
Proof.
  split.
  - intros H; discriminate H.
  - apply (country_filter_upper_cases_the_parameter (p := "uk") Sample.bbc []).
    intros H; discriminate H.
Defined.

(** C1 as stated fails: the stored code "pl" equals the parameter "PL" up to
    letter case, yet both filters, and the /channels handler as a whole, drop
    the channel. *)
Lemma country_filter_drops_lower_cased_code :
  Channel.country Sample.lower_cased = Some "pl" /\
  Spec.equal_ignoring_case "pl" "PL" /\
  StrictSearch.filter_country (Some "PL") [Sample.lower_cased] = [] /\
  ChannelsApi.filter_country (Some "PL")
    [Catalog.enrich [] [] [] Sample.lower_cased] = [] /\
  fst (ChannelsApi.handler
         (Sample.get (Sample.with_country "PL" Sample.no_query))
         (Sample.upstream [Sample.lower_cased]))
  = {| Catalog.status := 200; Catalog.body := Catalog.Channels [] 0 |}.
Proof. repeat split. Qed.

(** The advanced search, by contrast, lower-cases both sides. *)
Lemma advanced_country_filter_ignores_case (p : string) (c : Search.Result.t) :
  Search.country_matches p c = true <->
  exists s, Search.Result.country c = Some s /\ Spec.equal_ignoring_case s p.
Proof.
  unfold Search.country_matches, Spec.equal_ignoring_case.
  destruct (Search.Result.country c) as [s|].
  - rewrite String.eqb_eq. split.
    + intros H. exists s. auto.
    + intros (s' & E & H). now injection E as <-.
  - split; [discriminate | intros (s & E & _); discriminate].
Qed.

(* ------------------------------------------------------------------ *)
(** ** The join: streams, logo and country of a channel *)

Lemma stream_matches_true (cid : string) (s : Stream.t) :
  Catalog.stream_matches cid s = true <-> Spec.keyed_by_channel_or_feed cid s.
Proof.
  unfold Catalog.stream_matches, Spec.keyed_by_channel_or_feed.
  rewrite orb_true_iff, !strict_eq_true. reflexivity.
Qed.

(** C2, as the code has it.  The join of /channels and of the strict search
    attaches to a channel exactly the stream rows whose [channel] key or
    [feed] key is the channel's id, in dataset order; the join of the
    advanced search attaches exactly the rows whose [channel] key is the
    channel's id, in dataset order, and counts them in [streamCount]. *)
Theorem streams_joined_in_dataset_order :
  forall (streams : list Stream.t) (logos : list Logo.t)
         (countries : list Country.t) (b : Search.Bundle) (channel : Channel.t),
    (exists picked,
       Spec.Kept (Spec.keyed_by_channel_or_feed (Channel.id channel))
                 streams picked /\
       Catalog.streams (Catalog.enrich streams logos countries channel)
       = map Catalog.stream_out picked) /\
    (exists picked,
       Spec.Kept (Spec.keyed_by_channel (Channel.id channel))
                 (Search.streams b) picked /\
       Search.Result.streams (Search.enrich b channel)
       = map Search.stream_out picked /\
       Search.Result.streamCount (Search.enrich b channel)
       = List.length picked).
Proof.
  intros streams logos countries b channel. split.
  - exists (filter (Catalog.stream_matches (Channel.id channel)) streams).
    split; [|reflexivity].
    apply filter_Kept. intros s. apply stream_matches_true.
  - exists (filter (fun s => Js.strict_eq (Stream.channel s) (Channel.id channel))
                   (Search.streams b)).
    split; [|split; reflexivity].
    apply filter_Kept. intros s. apply strict_eq_true.
Qed.

(** C2 as stated fails on the advanced search: a stream row whose [feed] key
    is the channel's id is attached by the join of /channels and left out by
    the join of the advanced search. *)
Lemma advanced_search_join_ignores_feed_key :
  Stream.feed Sample.feed_keyed = Some (Channel.id Sample.bbc_one) /\
  Catalog.streams (Catalog.enrich [Sample.feed_keyed] [] [] Sample.bbc_one)
  = [Catalog.stream_out Sample.feed_keyed] /\
  Search.Result.streams
    (Search.enrich (Sample.bundle [Sample.feed_keyed]) Sample.bbc_one) = [] /\
  Search.Result.streamCount
    (Search.enrich (Sample.bundle [Sample.feed_keyed]) Sample.bbc_one) = 0%nat.
Proof. repeat split. Qed.

Lemma truthy_feed_specific (l : Logo.t) :
  Js.truthy (Logo.feed l) = true <-> Spec.feed_specific l.
Proof.
  unfold Js.truthy, Spec.feed_specific. destruct (Logo.feed l) as [f|].
  - rewrite negb_true_iff. split.
    + intros H. exists f. split; [reflexivity|].
      intros ->. discriminate H.
    + intros (f' & E & N). injection E as <-.
      now apply String.eqb_neq.
  - split; [discriminate | intros (f & E & _); discriminate].
Qed.

Lemma logo_matches_nofeed_true (cid : string) (l : Logo.t) :
  Catalog.logo_matches_nofeed cid l = true <->
  Spec.logo_of cid l /\ ~ Spec.feed_specific l.
Proof.
  unfold Catalog.logo_matches_nofeed, Spec.logo_of.
  rewrite andb_true_iff, strict_eq_true, negb_true_iff.
  rewrite <- truthy_feed_specific.
  destruct (Js.truthy (Logo.feed l)); intuition congruence.
Qed.

Lemma logo_matches_true (cid : string) (l : Logo.t) :
  Catalog.logo_matches cid l = true <-> Spec.logo_of cid l.
Proof. apply strict_eq_true. Qed.

Lemma exists_First (A : Type) (P : A -> Prop) (f : A -> bool) (l : list A) :
  (forall y, f y = true <-> P y) ->
  (exists y, In y l /\ P y) -> exists x, Spec.First P l x.
Proof.
  intros H. induction l as [|a r IH]; intros (y & Hy & Py).
  - destruct Hy.
  - destruct (f a) eqn:E.
    + exists a, [], r. repeat split; [now apply H | intros ? []].
    + assert (Hr : exists y, In y r /\ P y).
      { destruct Hy as [->|Hy]; [|eauto].
        apply H in Py. congruence. }
      destruct (IH Hr) as (x & before & after & -> & Px & Hb).
      exists x, (a :: before), after. repeat split; [exact Px|].
      intros z [<-|Hz]; [|now apply Hb].
      intros Pa. apply H in Pa. congruence.
Qed.

Lemma channelLogo_none (logos : list Logo.t) (cid : string) :
  (forall l, In l logos -> ~ Spec.logo_of cid l) ->
  Catalog.channelLogo logos cid = None.
Proof.
  intros Hnone. unfold Catalog.channelLogo, Js.find.
  assert (E1 : List.find (Catalog.logo_matches_nofeed cid) logos = None).
  { apply find_none_iff. intros y Hy.
    destruct (Catalog.logo_matches_nofeed cid y) eqn:E; [|reflexivity].
    apply logo_matches_nofeed_true in E as [Hc _].
    exfalso. now apply (Hnone y). }
  assert (E2 : List.find (Catalog.logo_matches cid) logos = None).
  { apply find_none_iff. intros y Hy.
    destruct (Catalog.logo_matches cid y) eqn:E; [|reflexivity].
    apply logo_matches_true in E. exfalso. now apply (Hnone y). }
  now rewrite E1, E2.
Qed.

(** C5.  The [logo] field of an enriched channel: when some logo row of the
    channel has no feed, the first such row in dataset order is chosen; when
    every logo row of the channel is feed-specific, the first row of the
    channel in dataset order is chosen; when the channel has no logo row, the
    field is null. *)
Theorem logo_prefers_row_without_feed :
  forall (streams : list Stream.t) (logos : list Logo.t)
         (countries : list Country.t) (channel : Channel.t),
    ((exists l, In l logos /\ Spec.logo_of (Channel.id channel) l /\
                ~ Spec.feed_specific l) ->
     exists x,
       Spec.First (fun l => Spec.logo_of (Channel.id channel) l /\
                            ~ Spec.feed_specific l) logos x /\
       Catalog.logo (Catalog.enrich streams logos countries channel)
       = Some (Logo.url x)) /\
    ((forall l, In l logos -> Spec.logo_of (Channel.id channel) l ->
                Spec.feed_specific l) ->
     forall x, Spec.First (Spec.logo_of (Channel.id channel)) logos x ->
       Catalog.logo (Catalog.enrich streams logos countries channel)
       = Some (Logo.url x)) /\
    ((forall l, In l logos -> ~ Spec.logo_of (Channel.id channel) l) ->
     Catalog.logo (Catalog.enrich streams logos countries channel) = None).
Proof.
  intros streams logos countries channel.
  set (cid := Channel.id channel). simpl.
  unfold Catalog.channelLogo, Js.find. fold cid.
  split; [|split].
  - intros (l & Hin & Hl & Hf).
    destruct (exists_First _ _ logos (logo_matches_nofeed_true cid))
      as (x & Hx); [eauto|].
    exists x. split; [exact Hx|].
    now rewrite (find_First _ (logo_matches_nofeed_true cid) Hx).
  - intros Hall x Hx.
    assert (E : List.find (Catalog.logo_matches_nofeed cid) logos = None).
    { apply find_none_iff. intros y Hy.
      destruct (Catalog.logo_matches_nofeed cid y) eqn:E; [|reflexivity].
      apply logo_matches_nofeed_true in E as [Hc Hn].
      exfalso. apply Hn. now apply Hall. }
    rewrite E. now rewrite (find_First _ (logo_matches_true cid) Hx).
  - intros Hnone. pose proof (channelLogo_none _ Hnone) as E.
    unfold Catalog.channelLogo, Js.find in E. now rewrite E.
Qed.

Example logo_tie_break_on_sample :
  Catalog.logo (Catalog.enrich [] [Sample.regional_logo; Sample.plain_logo] []
                               Sample.bbc_one) = Some "http://a/plain.png" /\
  Catalog.logo (Catalog.enrich [] [Sample.regional_logo] [] Sample.bbc_one)
  = Some "http://a/london.png" /\
  Catalog.logo (Catalog.enrich [] [Sample.regional_logo] [] Sample.bbc_two)
  = None.
Proof. repeat split. Qed.

Lemma countryInfo_none (countries : list Country.t) (cc : option string) :
  (forall c, In c countries -> cc <> Some (Country.code c)) ->
  Catalog.countryInfo countries cc = None.
Proof.
  intros H. unfold Catalog.countryInfo, Js.find. apply find_none_iff.
  intros c Hc. destruct (Js.strict_eq cc (Country.code c)) eqn:E; [|reflexivity].
  apply strict_eq_true in E. now apply H in Hc.
Qed.

Lemma strict_respond_after_matching (qs : string) (qy : Query.t)
    (channels rs : list Channel.t) (streams : list Stream.t)
    (logos : list Logo.t) (countries : list Country.t) :
  StrictSearch.matching qs qy channels = Js.Ok rs ->
  StrictSearch.respond qs qy channels streams logos countries
  = Js.Ok {| Catalog.status := 200;
             Catalog.body :=
               Catalog.Results qs
                 (map (Catalog.enrich streams logos countries)
                      (Js.slice rs (Js.Int 0)
                                (Catalog.parsed_limit 20 (Query.limit qy))))
                 (List.length
                    (Js.slice rs (Js.Int 0)
                              (Catalog.parsed_limit 20 (Query.limit qy)))) |}.
Proof.
  intros H. unfold StrictSearch.respond. rewrite H. simpl.
  now rewrite length_map.
Qed.

Lemma channels_respond_after_filters (qy : Query.t) (channels : list Channel.t)
    (streams : list Stream.t) (logos : list Logo.t)
    (countries : list Country.t) (fs : list Catalog.Enriched) :
  ChannelsApi.filtered qy (map (Catalog.enrich streams logos countries) channels)
  = Js.Ok fs ->
  ChannelsApi.respond qy channels streams logos countries
  = Js.Ok {| Catalog.status := 200;
             Catalog.body :=
               Catalog.Channels
                 (Js.slice fs (Js.Int 0)
                           (Catalog.parsed_limit 50 (Query.limit qy)))
                 (List.length
                    (Js.slice fs (Js.Int 0)
                              (Catalog.parsed_limit 50 (Query.limit qy)))) |}.
Proof.
  intros H. unfold ChannelsApi.respond. rewrite H. reflexivity.
Qed.

(** C8.  Enrichment is a total function of the channel: with no stream row
    keyed to the channel its [streams] list is empty, with no logo row of the
    channel its [logo] is null, and with the channel's country code absent
    from the countries its [country_name] and [country_flag] are null.  In
    both handlers the join adds no failure: once the filters have run, the
    response is a 200. *)
Theorem enrichment_never_fails :
  forall (streams : list Stream.t) (logos : list Logo.t)
         (countries : list Country.t) (channel : Channel.t),
    ((forall s, In s streams ->
        ~ Spec.keyed_by_channel_or_feed (Channel.id channel) s) ->
     Catalog.streams (Catalog.enrich streams logos countries channel) = []) /\
    ((forall l, In l logos -> ~ Spec.logo_of (Channel.id channel) l) ->
     Catalog.logo (Catalog.enrich streams logos countries channel) = None) /\
    ((forall c, In c countries ->
        Channel.country channel <> Some (Country.code c)) ->
     Catalog.country_name (Catalog.enrich streams logos countries channel) = None /\
     Catalog.country_flag (Catalog.enrich streams logos countries channel) = None) /\
    (forall qs qy channels rs,
       StrictSearch.matching qs qy channels = Js.Ok rs ->
       exists r, StrictSearch.respond qs qy channels streams logos countries
                 = Js.Ok r /\ Catalog.status r = 200%nat) /\
    (forall qy channels fs,
       ChannelsApi.filtered qy
         (map (Catalog.enrich streams logos countries) channels) = Js.Ok fs ->
       exists r, ChannelsApi.respond qy channels streams logos countries
                 = Js.Ok r /\ Catalog.status r = 200%nat).
Proof.
  intros streams logos countries channel.
  split; [|split; [|split; [|split]]].
  - intros H. simpl.
    replace (filter _ streams) with (@nil Stream.t); [reflexivity|].
    symmetry. induction streams as [|s r IH]; simpl; [reflexivity|].
    destruct (Catalog.stream_matches (Channel.id channel) s) eqn:E.
    + apply stream_matches_true in E. exfalso. apply (H s); simpl; auto.
    + apply IH. intros s' Hs'. apply H. simpl; auto.
  - intros H. simpl. now rewrite (channelLogo_none _ H).
  - intros H. simpl. now rewrite (countryInfo_none _ H).
  - intros qs qy channels rs H.
    eexists. split; [eapply strict_respond_after_matching; exact H|].
    reflexivity.
  - intros qy channels fs H.
    eexists. split; [eapply channels_respond_after_filters; exact H|].
    reflexivity.
Qed.

(* ------------------------------------------------------------------ *)
(** ** The strict search: the 400 response *)

Lemma strict_respond_status (qs : string) (qy : Query.t)
    (channels : list Channel.t) (streams : list Stream.t)
    (logos : list Logo.t) (countries : list Country.t) (r : Catalog.Response) :
  StrictSearch.respond qs qy channels streams logos countries = Js.Ok r ->
  Catalog.status r = 200%nat.
Proof.
  unfold StrictSearch.respond.
  destruct (StrictSearch.matching qs qy channels); simpl; [|discriminate].
  intros H. injection H as <-. reflexivity.
Qed.

(** C7, as the code has it.  An OPTIONS request is answered 200 with an empty
    body whatever its query.  Any other request whose [q] is absent or the
    empty string is answered 400 with
    [{success: false, error: "Search query (q) is required"}] before any
    fetch; and a 400 is produced in no other case. *)
Theorem strict_search_requires_q :
  forall (req : Request) (up : Upstream),
    (method req = "OPTIONS" ->
     StrictSearch.handler req up
     = ({| Catalog.status := 200; Catalog.body := Catalog.Empty |}, [])) /\
    (method req <> "OPTIONS" ->
     Query.q (query req) = None \/ Query.q (query req) = Some "" ->
     StrictSearch.handler req up
     = ({| Catalog.status := 400;
           Catalog.body := Catalog.Failure "Search query (q) is required" |},
        [])) /\
    (Catalog.status (fst (StrictSearch.handler req up)) = 400%nat ->
     method req <> "OPTIONS" /\
     (Query.q (query req) = None \/ Query.q (query req) = Some "")).
Proof.
  intros req up. unfold StrictSearch.handler.
  destruct (String.eqb_spec (method req) "OPTIONS") as [Em|Nm].
  - split; [reflexivity|]. split; [contradiction|].
    simpl. discriminate.
  - split; [contradiction|].
    destruct (Js.or_null (Query.q (query req))) as [qs|] eqn:Eq.
    + apply or_null_Some in Eq as [Eq Nq]. split.
      * intros _ [H|H]; congruence.
      * intros H. exfalso.
        destruct (up_channels up), (up_streams up), (up_logos up),
                 (up_countries up); simpl in H; try discriminate.
        destruct (StrictSearch.respond _ _ _ _ _ _) eqn:Er;
          simpl in H; [|discriminate].
        apply strict_respond_status in Er. congruence.
    + apply or_null_None in Eq. split; [reflexivity|]. auto.
Qed.

(** C7 as stated fails twice: with [q] absent an OPTIONS request gets a 200,
    and a request whose [q] is present but empty gets the 400. *)
Lemma strict_search_400_is_not_exactly_absent_q :
  Query.q Sample.no_query = None /\
  StrictSearch.handler {| method := "OPTIONS"; query := Sample.no_query |}
                       (Sample.upstream Sample.bbc)
  = ({| Catalog.status := 200; Catalog.body := Catalog.Empty |}, []) /\
  Query.q (Sample.with_q "" Sample.no_query) = Some "" /\
  StrictSearch.handler (Sample.get (Sample.with_q "" Sample.no_query))
                       (Sample.upstream Sample.bbc)
  = (StrictSearch.bad_request, []).
Proof. repeat split. Qed.

(* ------------------------------------------------------------------ *)
(** ** Pagination *)

Lemma lt_sum_below (offset limit : Js.num) (total : nat) :
  Js.lt (Js.add offset limit) (Js.Int (Z.of_nat total)) = true <->
  Spec.sum_below offset limit total.
Proof.
  unfold Spec.sum_below. destruct offset as [|o], limit as [|l]; simpl.
  - split; [discriminate | intros (o & l & E & _); discriminate].
  - split; [discriminate | intros (o & l' & E & _); discriminate].
  - split; [discriminate | intros (o' & l & _ & E & _); discriminate].
  - rewrite Z.ltb_lt. split.
    + intros H. exists o, l. auto.
    + intros (o' & l' & Eo & El & H). injection Eo as <-. injection El as <-.
      exact H.
Qed.



(** C4.  In every page the advanced search sends, [pagination.total] is the
    size of the filtered result list before slicing, [limit] and [offset] are
    the parsed parameters, and [hasMore] is the value of
    [offset + limit < total] on these three fields, whatever their values.
    Where [offset] and [limit] are [NaN] or safe integers, this is to say
    that [hasMore] is true if and only if both are integers and their exact
    sum is below [total]. *)
Theorem hasMore_iff_offset_plus_limit_below_total :
  forall (b : Search.Bundle) (now : string) (req : Request)
         (ts : string) (pg : Search.Pagination) (echo : Search.Echo)
         (creator : string) (data : list Search.Result.t),
    Search.body (Search.handler b now req) = Search.Page ts pg echo creator data ->
    Search.total pg = List.length (Search.filtered b (query req)) /\
    Search.limit pg = Search.parsedLimit (query req) /\
    Search.offset pg = Search.parsedOffset (query req) /\
    data = Js.slice (Search.filtered b (query req)) (Search.offset pg)
                    (Js.add (Search.offset pg) (Search.limit pg)) /\
    Search.hasMore pg
    = Js.lt (Js.add (Search.offset pg) (Search.limit pg))
            (Js.Int (Z.of_nat (Search.total pg))) /\
    (Spec.safe (Search.offset pg) -> Spec.safe (Search.limit pg) ->
     (Search.hasMore pg = true <->
      Spec.sum_below (Search.offset pg) (Search.limit pg) (Search.total pg))).
Proof.
  intros b now req ts pg echo creator data. unfold Search.handler.
  destruct (method req =? "OPTIONS"); simpl; [discriminate|].
  intros H. injection H as _ <- _ _ <-. simpl.
  repeat split; try reflexivity; apply lt_sum_below.
Qed.

Lemma hasMore_on_sample :
  Search.hasMore
    (fst (Search.paginate (Sample.with_limit "2" Sample.no_query)
            (Search.filtered (Sample.bundle [])
                             (Sample.with_limit "2" Sample.no_query)))) = true
  <-> Spec.sum_below (Js.Int 0) (Js.Int 2) 3.
Proof.
  refine (proj2 (proj2 (proj2 (proj2 (proj2
    (hasMore_iff_offset_plus_limit_below_total
       (Sample.bundle []) "2026-01-01T00:00:00.000Z"
       (Sample.get (Sample.with_limit "2" Sample.no_query))
       eq_refl))))) _ _); simpl; lia.
Defined.

(** C10, as the code has it.  In a successful response of the strict search,
    [total] is the number of results returned, that is the size of the slice
    [0 .. limit] of the matching channels: never more than the number of
    matches, and equal to [min limit matches] when the parsed limit is a
    number that is not negative.  In the advanced search [pagination.total]
    is the size of the filtered list before slicing, so the page is never
    longer than it. *)
Theorem strict_total_counts_returned_results :
  forall (qs : string) (qy : Query.t) (channels : list Channel.t)
         (streams : list Stream.t) (logos : list Logo.t)
         (countries : list Country.t) (r : Catalog.Response),
    StrictSearch.respond qs qy channels streams logos countries = Js.Ok r ->
    (exists rs data,
       StrictSearch.matching qs qy channels = Js.Ok rs /\
       r = {| Catalog.status := 200;
              Catalog.body := Catalog.Results qs data (List.length data) |} /\
       data = map (Catalog.enrich streams logos countries)
                  (Js.slice rs (Js.Int 0)
                            (Catalog.parsed_limit 20 (Query.limit qy))) /\
       (List.length data <= List.length rs)%nat /\
       (forall n, Catalog.parsed_limit 20 (Query.limit qy) = Js.Int n ->
                  (0 <= n)%Z ->
                  List.length data = Nat.min (Z.to_nat n) (List.length rs))) /\
    (forall b : Search.Bundle,
       Search.total (fst (Search.paginate qy (Search.filtered b qy)))
       = List.length (Search.filtered b qy) /\
       (List.length (snd (Search.paginate qy (Search.filtered b qy)))
        <= Search.total (fst (Search.paginate qy (Search.filtered b qy))))%nat).
Proof.
  intros qs qy channels streams logos countries r H. split.
  - destruct (StrictSearch.matching qs qy channels) as [rs|] eqn:Hm.
    + rewrite (@strict_respond_after_matching qs qy channels rs streams logos
                 countries Hm) in H.
      injection H as <-.
      exists rs. eexists. split; [reflexivity|].
      split; [rewrite length_map; f_equal; f_equal; now rewrite length_map|].
      split; [reflexivity|].
      rewrite length_map. split; [apply slice_length_le|].
      intros n -> Hn. rewrite (@slice_from_zero _ rs n Hn).
      apply length_firstn.
    + unfold StrictSearch.respond in H. rewrite Hm in H. discriminate H.
  - intros b. split; [reflexivity|]. simpl. apply slice_length_le.
Qed.

Lemma strict_total_on_sample :
  exists (rs : list Channel.t) (data : list Catalog.Enriched),
    StrictSearch.matching "bbc" (Sample.with_limit "2" Sample.no_query) Sample.bbc
    = Js.Ok rs /\
    List.length rs = 3%nat /\ List.length data = 2%nat.
Proof.
  destruct (proj1 (strict_total_counts_returned_results
                     "bbc" (Sample.with_limit "2" Sample.no_query) Sample.bbc
                     [] [] [] eq_refl))
    as (rs & data & Hm & _ & Hd & _ & Hn).
  exists rs, data. split; [exact Hm|].
  injection Hm as <-. split; [reflexivity|].
  exact (Hn 2%Z eq_refl ltac:(lia)).
Defined.

(** C10 as stated fails: with limit "-1" the strict search returns all but
    the last of the three matches, so [total] is 2 and exceeds the limit. *)
Lemma strict_total_exceeds_negative_limit :
  Catalog.parsed_limit 20
    (Query.limit (Sample.with_limit "-1" (Sample.with_q "bbc" Sample.no_query)))
  = Js.Int (-1) /\
  (exists data,
     fst (StrictSearch.handler
            (Sample.get (Sample.with_limit "-1" (Sample.with_q "bbc" Sample.no_query)))
            (Sample.upstream Sample.bbc))
     = {| Catalog.status := 200; Catalog.body := Catalog.Results "bbc" data 2 |}) /\
  (-1 < Z.of_nat 2)%Z.
Proof.
  split; [reflexivity|]. split; [eexists; reflexivity | reflexivity].
Qed.

(* ------------------------------------------------------------------ *)
(** ** The filters of the advanced search commute *)

Lemma apply_is_filter (k : Spec.FilterKind) (qy : Query.t) :
  exists f, forall l, Spec.apply k qy l = filter f l.
Proof.
  destruct k; simpl.
  - unfold Search.filter_q. destruct (Js.or_null (Query.q qy)) as [s|].
    + eexists. reflexivity.
    + exists (fun _ => true). intros l. symmetry.
      apply forallb_filter_id. now apply forallb_forall.
  - unfold Search.filter_country. destruct (Js.or_null (Query.country qy)) as [s|].
    + eexists. reflexivity.
    + exists (fun _ => true). intros l. symmetry.
      apply forallb_filter_id. now apply forallb_forall.
  - unfold Search.filter_category.
    destruct (Js.or_null (Query.category qy)) as [s|].
    + eexists. reflexivity.
    + exists (fun _ => true). intros l. symmetry.
      apply forallb_filter_id. now apply forallb_forall.
  - unfold Search.filter_nsfw. destruct (Query.nsfw qy) as [s|].
    + eexists. reflexivity.
    + exists (fun _ => true). intros l. symmetry.
      apply forallb_filter_id. now apply forallb_forall.
Qed.

(** C6.  Any two of the text, country, category and NSFW filters of the
    advanced search give the same list in either order, also when they read
    different queries; and a channel passes both exactly when it passes
    each. *)
Theorem filters_commute :
  forall (k1 k2 : Spec.FilterKind) (q1 q2 : Query.t) (l : list Search.Result.t),
    Spec.apply k1 q1 (Spec.apply k2 q2 l) = Spec.apply k2 q2 (Spec.apply k1 q1 l) /\
    (forall c, In c (Spec.apply k1 q1 (Spec.apply k2 q2 l)) <->
               In c (Spec.apply k1 q1 l) /\ In c (Spec.apply k2 q2 l)).
Proof.
  intros k1 k2 q1 q2 l.
  destruct (apply_is_filter k1 q1) as (f & Hf).
  destruct (apply_is_filter k2 q2) as (g & Hg).
  rewrite !Hf, !Hg. split.
  - apply filter_comm.
  - intros c. rewrite !filter_In. tauto.
Qed.

Example filters_commute_on_sample :
  Search.filter_country (Sample.with_country "uk" Sample.no_query)
    (Search.filter_q (Sample.with_q "news" Sample.no_query)
       (map (Search.enrich (Sample.bundle [])) Sample.bbc))
  = [Search.enrich (Sample.bundle []) Sample.bbc_news].
Proof. reflexivity. Qed.

(* ------------------------------------------------------------------ *)
(** ** The categories listing *)

Section CategoryMap.
Import Categories.

Lemma has_get (k : string) (m : CategoryMap) :
  has k m = match get k m with Some _ => true | None => false end.
Proof.
  induction m as [|[k0 w] r IH]; simpl; [reflexivity|].
  destruct (k0 =? k); simpl; [reflexivity | exact IH].
Qed.

Lemma get_set (k k' : string) (v : Cat.t) (m : CategoryMap) :
  get k' (set k v m) = if k =? k' then Some v else get k' m.
Proof.
  induction m as [|[k0 w] r IH]; simpl; [reflexivity|].
  destruct (String.eqb_spec k0 k) as [->|N]; simpl.
  - destruct (k =? k'); reflexivity.
  - rewrite IH. destruct (String.eqb_spec k0 k') as [->|N']; [|reflexivity].
    destruct (String.eqb_spec k k'); [congruence | reflexivity].
Qed.

Lemma keys_set (k : string) (v : Cat.t) (m : CategoryMap) :
  map fst (set k v m) = if has k m then map fst m else map fst m ++ [k].
Proof.
  induction m as [|[k0 w] r IH]; simpl; [reflexivity|].
  destruct (k0 =? k); simpl; [reflexivity|].
  rewrite IH. destruct (has k r); reflexivity.
Qed.

Lemma has_keys (k : string) (m : CategoryMap) :
  has k m = true <-> In k (map fst m).
Proof.
  induction m as [|[k0 w] r IH]; simpl; [split; [discriminate | tauto]|].
  rewrite orb_true_iff, String.eqb_eq, IH. reflexivity.
Qed.

Lemma get_In (k : string) (v : Cat.t) (m : CategoryMap) :
  get k m = Some v -> In (k, v) m.
Proof.
  induction m as [|[k0 w] r IH]; simpl; [discriminate|].
  destruct (String.eqb_spec k0 k) as [->|N].
  - intros H. injection H as ->. auto.
  - auto.
Qed.

Lemma In_get (k : string) (v : Cat.t) (m : CategoryMap) :
  NoDup (map fst m) -> In (k, v) m -> get k m = Some v.
Proof.
  induction m as [|[k0 w] r IH]; simpl; [tauto|].
  intros Hnd [E|Hin].
  - injection E as -> ->. now rewrite String.eqb_refl.
  - inversion Hnd as [|? ? Hk0 Hr]; subst.
    destruct (String.eqb_spec k0 k) as [->|N]; [|auto].
    exfalso. apply Hk0. change k with (fst (k, v)). now apply in_map.
Qed.

Lemma pushed_app (k : string) (vs ws : list (Channel.t * string)) :
  Spec.pushed k (vs ++ ws) = Spec.pushed k vs ++ Spec.pushed k ws.
Proof. unfold Spec.pushed. now rewrite filter_app, map_app. Qed.

Lemma pushed_one (k k' : string) (c : Channel.t) :
  Spec.pushed k' [(c, k)] = if k =? k' then [ref c] else [].
Proof. unfold Spec.pushed. simpl. now destruct (k =? k'). Qed.

Lemma visit_tracks (c : Channel.t) (k : string) (m : CategoryMap)
    (vs : list (Channel.t * string)) :
  Spec.map_tracks m vs -> Spec.map_tracks (visit c m k) (vs ++ [(c, k)]).
Proof.
  intros [Hnd Hget]. unfold visit. rewrite has_get.
  pose proof (Hget k) as Hk.
  destruct (get k m) as [cat|] eqn:Ek.
  - (* the category has an entry already *)
    rewrite Ek. destruct Hk as (Hname & Hchs & Hcnt). split.
    + rewrite keys_set, has_get, Ek. exact Hnd.
    + intros k'. rewrite get_set, pushed_app, pushed_one.
      destruct (String.eqb_spec k k') as [<-|N]; simpl.
      * rewrite Hchs, length_app. simpl. repeat split; auto.
        rewrite <- Hchs, <- Hcnt. lia.
      * specialize (Hget k'). rewrite app_nil_r.
        destruct (get k' m); exact Hget.
  - (* a fresh entry is set, then updated *)
    rewrite get_set, String.eqb_refl. split.
    + rewrite keys_set, has_get, get_set, String.eqb_refl.
      rewrite keys_set, has_get, Ek.
      apply NoDup_app; [exact Hnd | repeat constructor; intros [] |].
      intros x Hx [<-|[]]. apply has_keys in Hx. rewrite has_get, Ek in Hx.
      discriminate.
    + intros k'. rewrite !get_set, pushed_app, pushed_one.
      destruct (String.eqb_spec k k') as [<-|N]; simpl.
      * rewrite Hk. repeat split; reflexivity.
      * specialize (Hget k'). rewrite app_nil_r.
        destruct (get k' m); exact Hget.
Qed.

Lemma fold_visit_tracks (ws vs : list (Channel.t * string)) (m : CategoryMap) :
  Spec.map_tracks m vs ->
  Spec.map_tracks (fold_left (fun m v => visit (fst v) m (snd v)) ws m)
                  (vs ++ ws).
Proof.
  revert vs m. induction ws as [|[c k] ws IH]; intros vs m H; simpl.
  - now rewrite app_nil_r.
  - replace (vs ++ (c, k) :: ws) with ((vs ++ [(c, k)]) ++ ws)
      by now rewrite <- app_assoc.
    apply IH. now apply visit_tracks.
Qed.

Lemma build_as_visits (channels : list Channel.t) (m : CategoryMap) :
  fold_left (fun m channel =>
               match Channel.categories channel with
               | Some cats => fold_left (visit channel) cats m
               | None => m
               end) channels m
  = fold_left (fun m v => visit (fst v) m (snd v)) (Spec.visits channels) m.
Proof.
  revert m. induction channels as [|c r IH]; intros m; simpl; [reflexivity|].
  rewrite fold_left_app, IH. f_equal.
  destruct (Channel.categories c) as [cats|]; simpl; [|reflexivity].
  clear IH. revert m. induction cats as [|k cats IHc]; intros m; simpl; auto.
Qed.

Lemma build_tracks (channels : list Channel.t) :
  Spec.map_tracks (build channels) (Spec.visits channels).
Proof.
  unfold build. rewrite build_as_visits.
  apply (@fold_visit_tracks (Spec.visits channels) [] []).
  split; [constructor | intros k; reflexivity].
Qed.

End CategoryMap.

Lemma lists_b_true (k : string) (c : Channel.t) :
  Spec.lists_b k c = true <-> Spec.lists k c.
Proof.
  unfold Spec.lists_b, Spec.lists. destruct (Channel.categories c) as [cats|].
  - rewrite existsb_exists. split.
    + intros (x & Hx & E). apply String.eqb_eq in E. subst x.
      exists cats. auto.
    + intros (cats' & E & Hin). injection E as <-.
      exists k. split; [exact Hin | apply String.eqb_refl].
  - split; [discriminate | intros (cats & E & _); discriminate].
Qed.

Lemma pushed_pairs_of_set (k : string) (c : Channel.t) (cats : list string) :
  NoDup cats ->
  Spec.pushed k (map (pair c) cats)
  = if existsb (String.eqb k) cats then [Categories.ref c] else [].
Proof.
  induction 1 as [|a r Ha Hr IH]; [reflexivity|].
  change (map (pair c) (a :: r)) with ([(c, a)] ++ map (pair c) r).
  rewrite pushed_app, pushed_one, IH. simpl existsb.
  rewrite (String.eqb_sym k a).
  destruct (String.eqb_spec a k) as [->|N]; simpl; [|reflexivity].
  destruct (existsb (String.eqb k) r) eqn:E; [|reflexivity].
  exfalso. apply Ha. apply existsb_exists in E as (x & Hx & E).
  apply String.eqb_eq in E. now subst x.
Qed.

Lemma pushed_visits_of_sets (k : string) (channels : list Channel.t) :
  Spec.categories_are_sets channels ->
  Spec.pushed k (Spec.visits channels)
  = map Categories.ref (filter (Spec.lists_b k) channels).
Proof.
  induction channels as [|c r IH]; intros Hs; [reflexivity|].
  unfold Spec.visits. simpl flat_map. fold (Spec.visits r).
  rewrite pushed_app, IH.
  2:{ intros c' cats Hc'. apply Hs. simpl; auto. }
  simpl filter. unfold Spec.lists_b at 2.
  destruct (Channel.categories c) as [cats|] eqn:Ec; simpl Js.or_empty.
  - rewrite (@pushed_pairs_of_set k c cats).
    + now destruct (existsb (String.eqb k) cats).
    + apply (Hs c cats); simpl; auto.
  - reflexivity.
Qed.

Lemma insert_desc_In (A : Type) (key : A -> nat) (x y : A) (l : list A) :
  In y (Js.insert_desc key x l) <-> y = x \/ In y l.
Proof.
  induction l as [|a r IH]; simpl.
  - intuition congruence.
  - destruct (key a <=? key x)%nat; simpl; [|rewrite IH];
      intuition congruence.
Qed.

Lemma sort_desc_In (A : Type) (key : A -> nat) (y : A) (l : list A) :
  In y (Js.sort_desc key l) <-> In y l.
Proof.
  induction l as [|a r IH]; simpl; [reflexivity|].
  rewrite insert_desc_In, IH. intuition congruence.
Qed.

Lemma firstn_min_length (A : Type) (n : nat) (l : list A) :
  firstn (Nat.min (List.length l) n) l = firstn n l.
Proof.
  destruct (Nat.le_ge_cases n (List.length l)) as [H|H].
  - now rewrite Nat.min_r.
  - rewrite Nat.min_l by exact H. now rewrite !firstn_all2.
Qed.

(** What [categoryMap] holds for each of its values once built, whatever the
    channels list: the references pushed under the category's name. *)
Lemma built_entry (channels : list Channel.t) (cat : Categories.Cat.t) :
  In cat (map snd (Categories.build channels)) ->
  Categories.Cat.channels cat
  = Spec.pushed (Categories.Cat.name cat) (Spec.visits channels) /\
  Categories.Cat.channelCount cat
  = List.length (Categories.Cat.channels cat).
Proof.
  intros Hin. apply in_map_iff in Hin as ([k cat'] & E & Hin).
  simpl in E. subst cat'.
  destruct (build_tracks channels) as [Hnd Hget].
  specialize (Hget k). rewrite (In_get _ _ _ Hnd Hin) in Hget.
  destruct Hget as (-> & Hchs & Hcnt). auto.
Qed.

(** C9, as the code has it.  Every entry of the categories listing reports in
    [channelCount] the number of listings of its category, a listing being
    one occurrence of the category in the [categories] array of a channel,
    and holds in [topChannels] the id, name and country of the channels of
    the first [min channelCount 5] listings, in dataset order.  When no
    channel lists a category twice, [channelCount] is the number of channels
    that list the category and [topChannels] holds the first
    [min channelCount 5] of these channels. *)
Theorem category_entry_counts_listings_and_shows_five :
  forall (channels : list Channel.t) (e : Categories.Entry.t),
    In e (Categories.categoriesData channels) ->
    (exists listings,
       Spec.Kept (fun v => snd v = Categories.Entry.name e)
                 (Spec.visits channels) listings /\
       Categories.Entry.channelCount e = List.length listings /\
       Categories.Entry.topChannels e
       = firstn (Nat.min (Categories.Entry.channelCount e) 5)
                (map (fun v => Spec.reference (fst v)) listings)) /\
    (Spec.categories_are_sets channels ->
     exists listing,
       Spec.Kept (Spec.lists (Categories.Entry.name e)) channels listing /\
       Categories.Entry.channelCount e = List.length listing /\
       Categories.Entry.topChannels e
       = firstn (Nat.min (Categories.Entry.channelCount e) 5)
                (map Spec.reference listing)).
Proof.
  intros channels e He. unfold Categories.categoriesData in He.
  apply in_map_iff in He as (cat & <- & Hcat).
  apply sort_desc_In in Hcat.
  destruct (built_entry channels cat Hcat) as [Hchs Hcnt].
  assert (Htop : Categories.Entry.topChannels (Categories.entry cat)
                 = firstn (Nat.min (Categories.Cat.channelCount cat) 5)
                          (Categories.Cat.channels cat)).
  { simpl. rewrite (@slice_from_zero _ (Categories.Cat.channels cat) 5) by lia.
    rewrite Hcnt. symmetry. apply firstn_min_length. }
  split.
  - exists (filter (fun v => snd v =? Categories.Cat.name cat)
                   (Spec.visits channels)).
    split; [|split].
    + apply filter_Kept. intros v. apply String.eqb_eq.
    + simpl. rewrite Hcnt, Hchs. unfold Spec.pushed. now rewrite length_map.
    + rewrite Htop, Hchs. reflexivity.
  - intros Hs. rewrite (pushed_visits_of_sets _ Hs) in Hchs.
    exists (filter (Spec.lists_b (Categories.Cat.name cat)) channels).
    split; [|split].
    + apply filter_Kept. intros c. apply lists_b_true.
    + simpl. now rewrite Hcnt, Hchs, length_map.
    + rewrite Htop, Hchs. reflexivity.
Qed.

(** Conversely every category some channel lists has its entry. *)
Lemma listed_category_has_entry (channels : list Channel.t) (c : Channel.t)
    (k : string) :
  In c channels -> Spec.lists k c ->
  exists e, In e (Categories.categoriesData channels) /\
            Categories.Entry.name e = k.
Proof.
  intros Hc (cats & Ecats & Hk).
  assert (Hv : In (c, k) (Spec.visits channels)).
  { unfold Spec.visits. apply in_flat_map. exists c. split; [exact Hc|].
    rewrite Ecats. simpl. now apply in_map. }
  assert (Hp : Spec.pushed k (Spec.visits channels) <> []).
  { unfold Spec.pushed. intros E. apply map_eq_nil in E.
    assert (Hin : In (c, k) (filter (fun v => snd v =? k) (Spec.visits channels))).
    { apply filter_In. split; [exact Hv | apply String.eqb_refl]. }
    rewrite E in Hin. destruct Hin. }
  destruct (build_tracks channels) as [_ Hget]. specialize (Hget k).
  destruct (Categories.get k (Categories.build channels)) as [cat|] eqn:Eg;
    [|contradiction].
  destruct Hget as (Hname & _).
  exists (Categories.entry cat). split; [|exact Hname].
  unfold Categories.categoriesData. apply in_map. apply sort_desc_In.
  apply get_In in Eg. change cat with (snd (k, cat)). now apply in_map.
Qed.

Lemma sample_categories_are_sets : Spec.categories_are_sets Sample.bbc.
Proof.
  intros c cats [<-|[<-|[<-|[]]]] E; injection E as <-;
    repeat constructor; simpl; tauto.
Defined.

Lemma category_entry_on_sample :
  exists listing,
    Spec.Kept (Spec.lists "general") Sample.bbc listing /\
    2%nat = List.length listing /\
    [Spec.reference Sample.bbc_one; Spec.reference Sample.bbc_two]
    = firstn (Nat.min 2 5) (map Spec.reference listing).
Proof.
  refine (proj2 (@category_entry_counts_listings_and_shows_five
                   Sample.bbc Sample.general_entry _)
                sample_categories_are_sets).
  simpl. left. reflexivity.
Defined.

(** C9 as stated fails: the one channel of this dataset lists "news" twice;
    the entry reports a [channelCount] of 2 and two top channels, while one
    channel lists the category. *)
Lemma category_listed_twice_is_counted_twice :
  Channel.categories Sample.news_twice = Some ["news"; "news"] /\
  Spec.Kept (Spec.lists "news") [Sample.news_twice] [Sample.news_twice] /\
  exists e, In e (Categories.categoriesData [Sample.news_twice]) /\
            Categories.Entry.name e = "news" /\
            Categories.Entry.channelCount e = 2%nat /\
            Categories.Entry.topChannels e
            = [Spec.reference Sample.news_twice;
               Spec.reference Sample.news_twice].
Proof.
  split; [reflexivity|]. split.
  - apply Spec.Kept_take; [|constructor].
    exists ["news"; "news"]. split; [reflexivity | simpl; auto].
  - eexists. split; [simpl; left; reflexivity|]. repeat split.
Qed.

Example seven_news_channels_show_five :
  Categories.categoriesData Sample.seven_news
  = [{| Categories.Entry.name := "news";
        Categories.Entry.displayName := "News";
        Categories.Entry.channelCount := 7;
        Categories.Entry.topChannels :=
          map Categories.ref (firstn 5 Sample.seven_news) |}].
Proof. reflexivity. Qed.

(** Outside the data model: a channel that lists a category twice is counted
    twice and shown twice. *)
Example category_listed_twice_counts_twice :
  Categories.categoriesData [Sample.news_twice]
  = [{| Categories.Entry.name := "news";
        Categories.Entry.displayName := "News";
        Categories.Entry.channelCount := 2;
        Categories.Entry.topChannels :=
          [Categories.ref Sample.news_twice;
           Categories.ref Sample.news_twice] |}].
Proof. reflexivity. Qed.

(* ------------------------------------------------------------------ *)
(** * Further properties of the handlers *)

(** ** Substrings *)

Lemma prefix_append (p s : string) :
  prefix p s = true <-> exists post, s = (p ++ post)%string.
Proof.
  revert s. induction p as [|a p IH]; intros s.
  - split; [intros _; now exists s | intros _; now destruct s].
  - destruct s as [|b s]; simpl.
    + split; [discriminate | intros (post & E); discriminate].
    + destruct (ascii_dec a b) as [<-|N].
      * rewrite IH. split; intros (post & E); exists post; congruence.
      * split; [discriminate | intros (post & E); congruence].
Qed.

Lemma includes_step (s sub : string) :
  Js.includes s sub
  = prefix sub s ||
    match s with
    | EmptyString => false
    | String _ r => Js.includes r sub
    end.
Proof. destruct s; reflexivity. Qed.

Lemma includes_contains (s sub : string) :
  Js.includes s sub = true <-> Spec.contains s sub.
Proof.
  unfold Spec.contains. split.
  - induction s as [|c r IH]; rewrite includes_step, orb_true_iff.
    + intros [H|H]; [|discriminate].
      apply prefix_append in H as (post & E). now exists EmptyString, post.
    + intros [H|H].
      * apply prefix_append in H as (post & E). now exists EmptyString, post.
      * destruct (IH H) as (pre & post & E).
        exists (String c pre), post. simpl. now rewrite E.
  - intros (pre & post & E). revert s E.
    induction pre as [|c pre IH]; intros s E; simpl in E.
    + rewrite includes_step.
      assert (P : prefix sub s = true) by (apply prefix_append; eauto).
      now rewrite P.
    + subst s. rewrite includes_step, (IH _ eq_refl). apply orb_true_r.
Qed.

Lemma opt_includes_contains (v : option string) (q : string) :
  Search.opt_includes v (Js.toLowerCase q) = true <->
  exists n, v = Some n /\ Spec.contains_ignoring_case n q.
Proof.
  unfold Search.opt_includes, Spec.contains_ignoring_case.
  destruct v as [n|].
  - rewrite includes_contains. split.
    + intros H. now exists n.
    + intros (n' & E & H). now injection E as <-.
  - split; [discriminate | intros (n & E & _); discriminate].
Qed.

Lemma some_includes_contains (l : list string) (q : string) :
  Search.some_includes l (Js.toLowerCase q) = true <->
  exists a, In a l /\ Spec.contains_ignoring_case a q.
Proof.
  unfold Search.some_includes, Spec.contains_ignoring_case.
  rewrite existsb_exists.
  split; intros (a & Ha & H); exists a; split; auto;
    now apply includes_contains.
Qed.

Lemma q_matches_found_in (q : string) (c : Search.Result.t) :
  Search.q_matches (Js.toLowerCase q) c = true <-> Spec.found_in q c.
Proof.
  unfold Search.q_matches, Spec.found_in.
  rewrite !orb_true_iff, !opt_includes_contains, !some_includes_contains.
  tauto.
Qed.

(** X1.  With a non-empty [q], the text filter of the advanced search keeps,
    in order, exactly the results in which the lower-cased [q] occurs in the
    lower-cased name, an alternative name, the network or an owner. *)
Theorem advanced_text_search_finds_substrings :
  forall (qy : Query.t) (s : string) (results : list Search.Result.t),
    Query.q qy = Some s -> s <> "" ->
    Spec.Kept (Spec.found_in s) results (Search.filter_q qy results).
Proof.
  intros qy s results Hq Hs. unfold Search.filter_q.
  rewrite (proj2 (or_null_Some (Query.q qy) s)) by auto.
  apply filter_Kept. intros c. apply q_matches_found_in.
Qed.

Lemma advanced_text_search_on_sample :
  Spec.Kept (Spec.found_in "NEWS")
    (map (Search.enrich (Sample.bundle [])) Sample.bbc)
    (Search.filter_q (Sample.with_q "NEWS" Sample.no_query)
       (map (Search.enrich (Sample.bundle [])) Sample.bbc)).
Proof.
  apply (@advanced_text_search_finds_substrings
           (Sample.with_q "NEWS" Sample.no_query) "NEWS" _ eq_refl).
  intros H; discriminate H.
Defined.

(** ** Filtering twice *)

Lemma filter_idempotent (A : Type) (f : A -> bool) (l : list A) :
  filter f (filter f l) = filter f l.
Proof.
  induction l as [|x r IH]; simpl; [reflexivity|].
  destruct (f x) eqn:E; simpl; rewrite ?E, IH; reflexivity.
Qed.

Lemma filterM_Ok (A : Type) (p : A -> Js.result bool) (l r : list A) :
  Js.filterM p l = Js.Ok r ->
  r = filter (fun x => Spec.holds (p x)) l /\
  forall x, In x l -> exists b, p x = Js.Ok b.
Proof.
  revert r. induction l as [|x l IH]; simpl; intros r H.
  - injection H as <-. split; [reflexivity | intros x []].
  - destruct (p x) as [b|] eqn:Ex; simpl in H; [|discriminate].
    destruct (Js.filterM p l) as [r'|]; simpl in H; [|discriminate].
    injection H as <-. destruct (IH r' eq_refl) as [-> Hall]. split.
    + now destruct b.
    + intros y [<-|Hy]; eauto.
Qed.

Lemma filterM_total (A : Type) (p : A -> Js.result bool) (l : list A) :
  (forall x, In x l -> exists b, p x = Js.Ok b) ->
  Js.filterM p l = Js.Ok (filter (fun x => Spec.holds (p x)) l).
Proof.
  induction l as [|x l IH]; simpl; intros H; [reflexivity|].
  destruct (H x) as (b & Ex); [auto|]. rewrite Ex. simpl.
  rewrite IH by auto. simpl. now destruct b.
Qed.

Lemma filterM_Throw (A : Type) (p : A -> Js.result bool) (l : list A) (x : A) :
  In x l -> p x = Js.Throw -> Js.filterM p l = Js.Throw.
Proof.
  induction l as [|y l IH]; simpl; [tauto|].
  intros [->|Hx] E.
  - now rewrite E.
  - destruct (p y); simpl; [|reflexivity]. now rewrite IH.
Qed.

Lemma filterM_idempotent (A : Type) (p : A -> Js.result bool) (l r : list A) :
  Js.filterM p l = Js.Ok r -> Js.filterM p r = Js.Ok r.
Proof.
  intros H. apply filterM_Ok in H as [-> Hall].
  rewrite filterM_total.
  - now rewrite filter_idempotent.
  - intros x Hx. apply filter_In in Hx as [Hx _]. auto.
Qed.

(** X2.  The text filters are idempotent: applied to its own output, the
    text filter of the advanced search, of the strict search and of /channels
    returns that output unchanged (and does not throw where it did not). *)
Theorem text_filters_are_idempotent :
  forall (qy : Query.t) (term : string),
    (forall results,
       Search.filter_q qy (Search.filter_q qy results)
       = Search.filter_q qy results) /\
    (forall channels found,
       Js.filterM (StrictSearch.search_matches term) channels = Js.Ok found ->
       Js.filterM (StrictSearch.search_matches term) found = Js.Ok found) /\
    (forall enriched found,
       ChannelsApi.filter_search (Query.search qy) enriched = Js.Ok found ->
       ChannelsApi.filter_search (Query.search qy) found = Js.Ok found).
Proof.
  intros qy term. split; [|split].
  - intros results. unfold Search.filter_q.
    destruct (Js.or_null (Query.q qy)); [apply filter_idempotent | reflexivity].
  - intros channels found. apply filterM_idempotent.
  - intros enriched found. unfold ChannelsApi.filter_search.
    destruct (Js.or_null (Query.search qy)).
    + apply filterM_idempotent.
    + intros H. injection H as <-. reflexivity.
Qed.

(** ** The category filters *)

(** X3.  With a non-empty [category], the category filter of the advanced
    search keeps, in order, exactly the results one of whose categories
    equals the parameter up to letter case. *)
Theorem advanced_category_filter_ignores_case :
  forall (qy : Query.t) (s : string) (results : list Search.Result.t),
    Query.category qy = Some s -> s <> "" ->
    Spec.Kept (fun c => exists cat, In cat (Search.Result.categories c) /\
                                    Spec.equal_ignoring_case cat s)
              results (Search.filter_category qy results).
Proof.
  intros qy s results Hq Hs. unfold Search.filter_category.
  rewrite (proj2 (or_null_Some (Query.category qy) s)) by auto.
  apply filter_Kept. intros c. unfold Search.category_matches.
  rewrite existsb_exists. unfold Spec.equal_ignoring_case.
  split; intros (cat & Hin & H); exists cat; split; auto;
    now apply String.eqb_eq.
Qed.

Lemma advanced_category_filter_on_sample :
  Spec.Kept (fun c => exists cat, In cat (Search.Result.categories c) /\
                                  Spec.equal_ignoring_case cat "News")
    (map (Search.enrich (Sample.bundle [])) Sample.bbc)
    (Search.filter_category (Sample.with_category "News" Sample.no_query)
       (map (Search.enrich (Sample.bundle [])) Sample.bbc)).
Proof.
  apply (@advanced_category_filter_ignores_case
           (Sample.with_category "News" Sample.no_query) "News" _ eq_refl).
  intros H; discriminate H.
Defined.

Lemma arr_includes_In (l : list string) (x : string) :
  Js.arr_includes l x = true <-> In x l.
Proof.
  unfold Js.arr_includes. rewrite existsb_exists. split.
  - intros (y & Hy & E). apply String.eqb_eq in E. now subst y.
  - intros H. exists x. split; [exact H | apply String.eqb_refl].
Qed.

Lemma holds_categories_include (cats : option (list string)) (p : string) :
  Spec.holds (Catalog.categories_include cats p) = true <->
  exists l, cats = Some l /\ In (Js.toLowerCase p) l.
Proof.
  unfold Catalog.categories_include. destruct cats as [l|]; simpl.
  - destruct (Js.arr_includes l (Js.toLowerCase p)) eqn:E.
    + apply arr_includes_In in E. split; eauto.
    + split; [discriminate|]. intros (l' & El & H). injection El as <-.
      apply arr_includes_In in H. congruence.
  - split; [discriminate | intros (l & E & _); discriminate].
Qed.

(** X4.  With a non-empty [category], the category filter of /channels and
    of the strict search looks the lower-cased parameter up in the stored
    list as it is: when it returns, it has kept exactly the channels that
    list the lower-cased parameter, so a category stored as "News" is never
    matched; and it throws as soon as one of the channels it is given has no
    categories list. *)
Theorem strict_category_filter_lower_cases_the_parameter :
  forall (p : string) (raw : list Channel.t) (enriched : list Catalog.Enriched),
    p <> "" ->
    (forall kept, StrictSearch.filter_category (Some p) raw = Js.Ok kept ->
       Spec.Kept (fun c => exists l, Channel.categories c = Some l /\
                                     In (Js.toLowerCase p) l) raw kept) /\
    (forall kept, ChannelsApi.filter_category (Some p) enriched = Js.Ok kept ->
       Spec.Kept (fun c => exists l, Catalog.categories c = Some l /\
                                     In (Js.toLowerCase p) l) enriched kept) /\
    ((exists c, In c raw /\ Channel.categories c = None) ->
     StrictSearch.filter_category (Some p) raw = Js.Throw) /\
    ((exists c, In c enriched /\ Catalog.categories c = None) ->
     ChannelsApi.filter_category (Some p) enriched = Js.Throw).
Proof.
  intros p raw enriched Hp.
  unfold StrictSearch.filter_category, ChannelsApi.filter_category.
  rewrite (proj2 (or_null_Some (Some p) p)) by auto.
  split; [|split; [|split]].
  - intros kept H. apply filterM_Ok in H as [-> _].
    apply filter_Kept. intros c. apply holds_categories_include.
  - intros kept H. apply filterM_Ok in H as [-> _].
    apply filter_Kept. intros c. apply holds_categories_include.
  - intros (c & Hc & E). apply (@filterM_Throw _ _ raw c Hc). now rewrite E.
  - intros (c & Hc & E). apply (@filterM_Throw _ _ enriched c Hc). now rewrite E.
Qed.

Lemma strict_category_filter_on_sample :
  Spec.Kept (fun c => exists l, Channel.categories c = Some l /\
                                In (Js.toLowerCase "NEWS") l)
            Sample.bbc [Sample.bbc_news].
Proof.
  apply (proj1 (@strict_category_filter_lower_cases_the_parameter
                  "NEWS" Sample.bbc [] ltac:(intros H; discriminate H))).
  reflexivity.
Defined.

(* ------------------------------------------------------------------ *)
(** ** The sort by decreasing key *)

Section SortDesc.
Variable A : Type.
Variable key : A -> nat.

Lemma insert_desc_Permutation (x : A) (l : list A) :
  Permutation (x :: l) (Js.insert_desc key x l).
Proof.
  induction l as [|y r IH]; simpl; [reflexivity|].
  destruct (key y <=? key x)%nat; [reflexivity|].
  rewrite perm_swap. now apply perm_skip.
Qed.

Lemma sort_desc_Permutation (l : list A) :
  Permutation l (Js.sort_desc key l).
Proof.
  induction l as [|x r IH]; simpl; [reflexivity|].
  rewrite <- insert_desc_Permutation. now apply perm_skip.
Qed.

Lemma insert_desc_descending (x : A) (l : list A) :
  Spec.descending key l -> Spec.descending key (Js.insert_desc key x l).
Proof.
  unfold Spec.descending.
  induction 1 as [|y r Hr IH Hy]; simpl.
  - repeat constructor.
  - destruct (Nat.leb_spec (key y) (key x)) as [Hle|Hlt].
    + constructor; [now constructor|].
      constructor; [exact Hle|].
      eapply Forall_impl; [|exact Hy]. simpl. intros b Hb. lia.
    + constructor; [exact IH|].
      apply (Permutation_Forall (insert_desc_Permutation x r)).
      constructor; [lia | exact Hy].
Qed.

Lemma sort_desc_descending (l : list A) :
  Spec.descending key (Js.sort_desc key l).
Proof.
  induction l as [|x r IH]; simpl.
  - constructor.
  - now apply insert_desc_descending.
Qed.

Lemma insert_desc_stable (n : nat) (x : A) (l : list A) :
  filter (fun a => key a =? n)%nat (Js.insert_desc key x l)
  = filter (fun a => key a =? n)%nat (x :: l).
Proof.
  induction l as [|y r IH]; simpl; [reflexivity|].
  destruct (Nat.leb_spec (key y) (key x)) as [Hle|Hlt]; [reflexivity|].
  simpl. rewrite IH. simpl.
  destruct (Nat.eqb_spec (key x) n), (Nat.eqb_spec (key y) n);
    try reflexivity. lia.
Qed.

Lemma sort_desc_stable (n : nat) (l : list A) :
  filter (fun a => key a =? n)%nat (Js.sort_desc key l)
  = filter (fun a => key a =? n)%nat l.
Proof.
  induction l as [|x r IH]; simpl; [reflexivity|].
  rewrite insert_desc_stable. simpl. now rewrite IH.
Qed.

Lemma sort_desc_map (B : Type) (f : B -> A) (l : list B) :
  Js.sort_desc key (map f l) = map f (Js.sort_desc (fun b => key (f b)) l).
Proof.
  induction l as [|x r IH]; simpl; [reflexivity|].
  rewrite IH. generalize (Js.sort_desc (fun b => key (f b)) r). intros s.
  induction s as [|y s IHs]; simpl; [reflexivity|].
  destruct (key (f y) <=? key (f x))%nat; simpl; [reflexivity|].
  now rewrite IHs.
Qed.

End SortDesc.

(** X7.  The advanced search orders its results by decreasing stream count:
    the list it paginates is in decreasing order of [streamCount], holds
    exactly the results that passed the filters (each once), and keeps
    results with the same stream count in dataset order. *)
Theorem advanced_results_sorted_by_stream_count :
  forall (b : Search.Bundle) (qy : Query.t),
    Spec.descending Search.Result.streamCount (Search.filtered b qy) /\
    Permutation
      (Search.filter_hasStreams qy (Search.filter_nsfw qy
         (Search.filter_category qy (Search.filter_country qy
            (Search.filter_q qy (map (Search.enrich b) (Search.channels b)))))))
      (Search.filtered b qy) /\
    (forall n,
       filter (fun c => Search.Result.streamCount c =? n)%nat
              (Search.filtered b qy)
       = filter (fun c => Search.Result.streamCount c =? n)%nat
           (Search.filter_hasStreams qy (Search.filter_nsfw qy
              (Search.filter_category qy (Search.filter_country qy
                 (Search.filter_q qy
                    (map (Search.enrich b) (Search.channels b)))))))).
Proof.
  intros b qy. unfold Search.filtered. split; [|split].
  - apply sort_desc_descending.
  - apply sort_desc_Permutation.
  - intros n. apply sort_desc_stable.
Qed.

(** ** What every result of a page satisfies *)

Lemma In_firstn (A : Type) (n : nat) (l : list A) (x : A) :
  In x (firstn n l) -> In x l.
Proof.
  intros H. rewrite <- (firstn_skipn n l). apply in_or_app. now left.
Qed.

Lemma In_skipn (A : Type) (n : nat) (l : list A) (x : A) :
  In x (skipn n l) -> In x l.
Proof.
  intros H. rewrite <- (firstn_skipn n l). apply in_or_app. now right.
Qed.

Lemma slice_In (A : Type) (l : list A) (a b : Js.num) (x : A) :
  In x (Js.slice l a b) -> In x l.
Proof.
  unfold Js.slice. intros H.
  apply In_firstn in H. now apply In_skipn in H.
Qed.





Lemma filter_hasStreams_In qy l c :
  In c (Search.filter_hasStreams qy l) -> In c l.
Proof.
  unfold Search.filter_hasStreams.
  destruct (Query.hasStreams qy) as [s|]; [|auto].
  destruct (String.eqb_spec s "true") as [->|N].
  - intros H. now apply filter_In in H.
  - intros H.
    replace (match s with "true" => filter Search.has_streams l | _ => l end)
      with l in H; [exact H|].
    clear H. destruct s as [|[[] [] [] [] [] [] [] []] s]; try reflexivity.
    repeat (destruct s as [|[[] [] [] [] [] [] [] []] s]; try reflexivity).
    congruence.
Qed.

Lemma page_body (b : Search.Bundle) (now : string) (req : Request)
    (ts : string) (pg : Search.Pagination) (echo : Search.Echo)
    (creator : string) (data : list Search.Result.t) :
  Search.body (Search.handler b now req) = Search.Page ts pg echo creator data ->
  pg = fst (Search.paginate (query req) (Search.filtered b (query req))) /\
  data = snd (Search.paginate (query req) (Search.filtered b (query req))).
Proof.
  unfold Search.handler. destruct (method req =? "OPTIONS"); simpl;
    [discriminate|].
  intros H. injection H as _ <- _ _ <-. split; reflexivity.
Qed.

Lemma filtered_In (b : Search.Bundle) (qy : Query.t) (c : Search.Result.t) :
  In c (Search.filtered b qy) ->
  In c (Search.filter_hasStreams qy (Search.filter_nsfw qy
          (Search.filter_category qy (Search.filter_country qy
             (Search.filter_q qy (map (Search.enrich b) (Search.channels b))))))).
Proof. unfold Search.filtered. apply sort_desc_In. Qed.

(** X5.  The [nsfw] parameter of the advanced search filters whenever it is
    supplied, whatever its value: every result of the page then has [isNsfw]
    equal to "the value is exactly the string true", so that [nsfw=false],
    [nsfw=1] and an empty [nsfw] all select the channels that are not NSFW. *)
Theorem nsfw_filters_whenever_supplied :
  forall (b : Search.Bundle) (now : string) (req : Request)
         (ts : string) (pg : Search.Pagination) (echo : Search.Echo)
         (creator : string) (data : list Search.Result.t)
         (s : string) (c : Search.Result.t),
    Search.body (Search.handler b now req) = Search.Page ts pg echo creator data ->
    Query.nsfw (query req) = Some s ->
    In c data ->
    Search.Result.isNsfw c = (s =? "true").
Proof.
  intros b now req ts pg echo creator data s c Hb Hs Hc.
  apply page_body in Hb as [_ ->]. apply slice_In, filtered_In in Hc.
  apply filter_hasStreams_In in Hc. unfold Search.filter_nsfw in Hc.
  rewrite Hs in Hc. apply filter_In in Hc as [_ Hc].
  unfold Search.nsfw_matches in Hc. now apply Bool.eqb_prop in Hc.
Qed.

Lemma nsfw_on_sample :
  Search.Result.isNsfw (Search.enrich (Sample.bundle []) Sample.bbc_one)
  = ("" =? "true").
Proof.
  apply (@nsfw_filters_whenever_supplied (Sample.bundle []) "now"
           (Sample.get (Sample.with_nsfw "" Sample.no_query))
           _ _ _ _ _ "" _ eq_refl eq_refl).
  simpl. left. reflexivity.
Defined.



(** ** Windows of the result list *)

Lemma slice_window (A : Type) (r : list A) (o l : Z) :
  (0 <= o)%Z -> (0 <= l)%Z ->
  Js.slice r (Js.Int o) (Js.Int (o + l))
  = firstn (Z.to_nat l) (skipn (Z.to_nat o) r).
Proof.
  intros Ho Hl. unfold Js.slice, Js.rel_index, Js.to_integer.
  destruct (Z.ltb_spec o 0); [lia|]. destruct (Z.ltb_spec (o + l) 0); [lia|].
  set (len := List.length r).
  destruct (Z.le_gt_cases o (Z.of_nat len)) as [Hin|Hout].
  - rewrite (Z.min_l o) by lia.
    rewrite <- (firstn_min_length (Z.to_nat l) (skipn (Z.to_nat o) r)).
    f_equal. rewrite length_skipn. fold len. lia.
  - rewrite (Z.min_r o) by lia. rewrite Nat2Z.id.
    rewrite !skipn_all2 by (fold len; lia). now rewrite !firstn_nil.
Qed.

Lemma firstn_then_next (A : Type) (n m : nat) (s : list A) :
  firstn n s ++ firstn m (skipn n s) = firstn (n + m) s.
Proof.
  revert s. induction n as [|n IH]; intros s; simpl; [reflexivity|].
  destruct s as [|x s]; simpl.
  - now rewrite firstn_nil.
  - now rewrite IH.
Qed.

(** X8.  With an offset and a limit that are not negative, a page of the
    advanced search is the window of [limit] results that starts after the
    first [offset] ones; and the page that starts where it ends (offset
    [offset + limit]) continues it with neither gap nor overlap. *)
Theorem consecutive_pages_are_adjacent :
  forall (q1 q2 : Query.t) (results : list Search.Result.t) (o l l' : Z),
    Search.parsedOffset q1 = Js.Int o -> Search.parsedLimit q1 = Js.Int l ->
    Search.parsedOffset q2 = Js.Int (o + l) ->
    Search.parsedLimit q2 = Js.Int l' ->
    (0 <= o)%Z -> (0 <= l)%Z -> (0 <= l')%Z ->
    snd (Search.paginate q1 results)
    = firstn (Z.to_nat l) (skipn (Z.to_nat o) results) /\
    snd (Search.paginate q1 results) ++ snd (Search.paginate q2 results)
    = firstn (Z.to_nat (l + l')) (skipn (Z.to_nat o) results).
Proof.
  intros q1 q2 results o l l' Ho1 Hl1 Ho2 Hl2 Ho Hl Hl'.
  unfold Search.paginate. simpl. rewrite Ho1, Hl1, Ho2, Hl2. simpl.
  rewrite !slice_window by lia. split; [reflexivity|].
  replace (Z.to_nat (o + l)) with (Z.to_nat l + Z.to_nat o)%nat by lia.
  rewrite <- skipn_skipn, firstn_then_next. f_equal. lia.
Qed.

Lemma consecutive_pages_on_sample :
  snd (Search.paginate (Sample.with_limit "2" Sample.no_query)
         (Search.filtered (Sample.bundle []) Sample.no_query))
  ++ snd (Search.paginate
            (Sample.with_offset "2" (Sample.with_limit "2" Sample.no_query))
            (Search.filtered (Sample.bundle []) Sample.no_query))
  = firstn (Z.to_nat (2 + 2))
           (skipn (Z.to_nat 0)
                  (Search.filtered (Sample.bundle []) Sample.no_query)).
Proof.
  apply (@consecutive_pages_are_adjacent
           (Sample.with_limit "2" Sample.no_query)
           (Sample.with_offset "2" (Sample.with_limit "2" Sample.no_query))
           _ 0%Z 2%Z 2%Z eq_refl eq_refl eq_refl eq_refl); lia.
Defined.

(** X9.  With an offset and a limit that are not negative, [hasMore] is true
    exactly when some result lies beyond the page; an offset at or past the
    end of the results gives an empty page with [hasMore] false. *)
Theorem hasMore_means_results_remain :
  forall (qy : Query.t) (results : list Search.Result.t) (o l : Z),
    Search.parsedOffset qy = Js.Int o -> Search.parsedLimit qy = Js.Int l ->
    (0 <= o)%Z -> (0 <= l)%Z ->
    (Search.hasMore (fst (Search.paginate qy results)) = true <->
     skipn (Z.to_nat (o + l)) results <> []) /\
    ((Z.of_nat (List.length results) <= o)%Z ->
     snd (Search.paginate qy results) = [] /\
     Search.hasMore (fst (Search.paginate qy results)) = false).
Proof.
  intros qy results o l Ho Hl Hon Hln.
  unfold Search.paginate. simpl. rewrite Ho, Hl. simpl. split.
  - rewrite Z.ltb_lt. split.
    + intros H E. apply (f_equal (@List.length _)) in E.
      rewrite length_skipn in E. simpl in E. lia.
    + intros H. destruct (Z.lt_ge_cases (o + l) (Z.of_nat (List.length results)))
        as [Hlt|Hge]; [exact Hlt|].
      exfalso. apply H. apply skipn_all2. lia.
  - intros Hout. split.
    + rewrite slice_window by lia. rewrite skipn_all2 by lia.
      apply firstn_nil.
    + apply Z.ltb_ge. lia.
Qed.

Lemma hasMore_remaining_on_sample :
  Search.hasMore (fst (Search.paginate (Sample.with_limit "2" Sample.no_query)
                         (Search.filtered (Sample.bundle []) Sample.no_query)))
  = true <->
  skipn (Z.to_nat (0 + 2)) (Search.filtered (Sample.bundle []) Sample.no_query)
  <> [].
Proof.
  apply (@hasMore_means_results_remain
           (Sample.with_limit "2" Sample.no_query) _ 0%Z 2%Z
           eq_refl eq_refl); lia.
Defined.

(* ------------------------------------------------------------------ *)
(** ** Fetches and failures of the two remote handlers *)

(** X10.  /channels asks for the four documents one at a time and stops at
    the first that fails: the URLs it fetched are a non-empty prefix of the
    four, no document is requested after a failed one, any failed document
    it reaches makes the response the 500 "Internal server error", and a 200
    means that all four were fetched. *)
Theorem channels_fetches_stop_at_first_failure :
  forall (req : Request) (up : Upstream),
    method req <> "OPTIONS" ->
    (exists n, (1 <= n)%nat /\
               snd (ChannelsApi.handler req up) = firstn n Spec.documents) /\
    (up_channels up = None ->
     ChannelsApi.handler req up = (Catalog.internal_error, [url_channels])) /\
    (up_streams up = None ->
     fst (ChannelsApi.handler req up) = Catalog.internal_error /\
     ~ In url_logos (snd (ChannelsApi.handler req up)) /\
     ~ In url_countries (snd (ChannelsApi.handler req up))) /\
    (up_logos up = None ->
     fst (ChannelsApi.handler req up) = Catalog.internal_error /\
     ~ In url_countries (snd (ChannelsApi.handler req up))) /\
    (up_countries up = None ->
     fst (ChannelsApi.handler req up) = Catalog.internal_error) /\
    (Catalog.status (fst (ChannelsApi.handler req up)) = 200%nat ->
     snd (ChannelsApi.handler req up) = Spec.documents /\
     up_channels up <> None /\ up_streams up <> None /\
     up_logos up <> None /\ up_countries up <> None).
Proof.
  intros req up Hm. unfold ChannelsApi.handler.
  destruct (String.eqb_spec (method req) "OPTIONS") as [E|_]; [contradiction|].
  assert (Hne : forall a b : string, (a =? b) = false -> a <> b)
    by (intros a b X; now apply String.eqb_neq).
  destruct (up_channels up) as [chs|].
  2:{ split; [exists 1%nat; split; [lia | reflexivity]|].
      repeat split; try reflexivity; try discriminate;
        simpl; intros [X|[]]; revert X; apply Hne; reflexivity. }
  destruct (up_streams up) as [sts|].
  2:{ split; [exists 2%nat; split; [lia | reflexivity]|].
      repeat split; try reflexivity; try discriminate;
        simpl; intros [X|[X|[]]]; revert X; apply Hne; reflexivity. }
  destruct (up_logos up) as [lgs|].
  2:{ split; [exists 3%nat; split; [lia | reflexivity]|].
      repeat split; try reflexivity; try discriminate;
        simpl; intros [X|[X|[X|[]]]]; revert X; apply Hne; reflexivity. }
  destruct (up_countries up) as [cos|].
  2:{ split; [exists 4%nat; split; [lia | reflexivity]|].
      repeat split; try reflexivity; discriminate. }
  destruct (ChannelsApi.respond _ _ _ _ _);
    (split; [exists 4%nat; split; [lia | reflexivity]|]);
    repeat split; try reflexivity; discriminate.
Qed.

Lemma channels_fetches_on_sample :
  ChannelsApi.handler (Sample.get Sample.no_query)
    {| up_channels := None; up_streams := Some []; up_logos := Some [];
       up_countries := Some [] |}
  = (Catalog.internal_error, [url_channels]).
Proof.
  apply (@channels_fetches_stop_at_first_failure
           (Sample.get Sample.no_query)
           {| up_channels := None; up_streams := Some []; up_logos := Some [];
              up_countries := Some [] |}).
  - intros H; discriminate H.
  - reflexivity.
Defined.

(** X11.  The strict search fetches nothing or everything: an OPTIONS
    request and a request without a usable [q] fetch no document, every
    other request starts all four fetches, and if one of them fails the
    response is the 500 "Internal server error".  Its status is always 200,
    400 or 500. *)
Theorem strict_fetches_all_or_nothing :
  forall (req : Request) (up : Upstream),
    (snd (StrictSearch.handler req up) = [] \/
     snd (StrictSearch.handler req up) = Spec.documents) /\
    (snd (StrictSearch.handler req up) = [] <->
     method req = "OPTIONS" \/ Js.or_null (Query.q (query req)) = None) /\
    (snd (StrictSearch.handler req up) = Spec.documents ->
     up_channels up = None \/ up_streams up = None \/
     up_logos up = None \/ up_countries up = None ->
     fst (StrictSearch.handler req up) = Catalog.internal_error) /\
    (Catalog.status (fst (StrictSearch.handler req up)) = 200%nat \/
     Catalog.status (fst (StrictSearch.handler req up)) = 400%nat \/
     Catalog.status (fst (StrictSearch.handler req up)) = 500%nat).
Proof.
  intros req up. unfold StrictSearch.handler.
  destruct (String.eqb_spec (method req) "OPTIONS") as [E|N].
  - simpl. repeat split; auto; discriminate.
  - destruct (Js.or_null (Query.q (query req))) as [qs|].
    + assert (Hd : Spec.documents <> []) by discriminate.
      destruct (up_channels up), (up_streams up), (up_logos up),
               (up_countries up); simpl;
        try (repeat split; auto; try discriminate;
             intros [?|?]; [contradiction | discriminate]).
      destruct (StrictSearch.respond _ _ _ _ _ _) as [r|] eqn:Er; simpl.
      * apply strict_respond_status in Er.
        repeat split; auto; try discriminate.
        -- intros [?|?]; [contradiction | discriminate].
        -- intros _ [H|[H|[H|H]]]; discriminate H.
      * repeat split; auto; try discriminate.
        intros [?|?]; [contradiction | discriminate].
    + simpl. repeat split; auto; discriminate.
Qed.

(** ** When the filters of the remote handlers throw *)

Lemma strict_filter_country_In p l c :
  In c (StrictSearch.filter_country p l) -> In c l.
Proof.
  unfold StrictSearch.filter_country. destruct (Js.or_null p); [|auto].
  intros H. now apply filter_In in H.
Qed.

Lemma channels_filter_country_In p l c :
  In c (ChannelsApi.filter_country p l) -> In c l.
Proof.
  unfold ChannelsApi.filter_country. destruct (Js.or_null p); [|auto].
  intros H. now apply filter_In in H.
Qed.

Lemma strict_matching_total (qs : string) (qy : Query.t)
    (channels : list Channel.t) :
  (forall c, In c channels ->
             Channel.name c <> None /\ Channel.categories c <> None) ->
  exists rs, StrictSearch.matching qs qy channels = Js.Ok rs.
Proof.
  intros Hrows. unfold StrictSearch.matching.
  rewrite filterM_total.
  2:{ intros c Hc. destruct (Hrows c Hc) as [Hn _].
      unfold StrictSearch.search_matches, Catalog.name_includes.
      destruct (Channel.name c); [simpl; eauto | contradiction]. }
  simpl. unfold StrictSearch.filter_category.
  destruct (Js.or_null (Query.category qy)) as [cat|]; [|eauto].
  rewrite filterM_total; [eauto|].
  intros c Hc. apply strict_filter_country_In, filter_In in Hc as [Hc _].
  destruct (Hrows c Hc) as [_ Hcats]. unfold Catalog.categories_include.
  destruct (Channel.categories c); [eauto | contradiction].
Qed.

Lemma channels_filtered_total (qy : Query.t) (enriched : list Catalog.Enriched) :
  (forall c, In c enriched ->
             Catalog.name c <> None /\ Catalog.alt_names c <> None /\
             Catalog.categories c <> None) ->
  exists fs, ChannelsApi.filtered qy enriched = Js.Ok fs.
Proof.
  intros Hrows. unfold ChannelsApi.filtered.
  set (F1 := ChannelsApi.filter_country (Query.country qy) enriched).
  assert (H1 : forall c, In c F1 -> In c enriched)
    by (intros c; apply channels_filter_country_In).
  assert (H2 : exists F2, ChannelsApi.filter_search (Query.search qy) F1
                          = Js.Ok F2 /\ forall c, In c F2 -> In c enriched).
  { unfold ChannelsApi.filter_search.
    destruct (Js.or_null (Query.search qy)) as [s|]; [|eauto].
    rewrite filterM_total.
    - eexists. split; [reflexivity|].
      intros c Hc. apply filter_In in Hc as [Hc _]. auto.
    - intros c Hc. destruct (Hrows c (H1 c Hc)) as (Hn & Ha & _).
      unfold ChannelsApi.search_matches, Catalog.name_includes.
      destruct (Catalog.name c) as [n|]; [simpl | contradiction].
      destruct (Js.includes (Js.toLowerCase n) (Js.toLowerCase s)); [eauto|].
      destruct (Catalog.alt_names c); [eauto | contradiction]. }
  destruct H2 as (F2 & -> & H2). simpl.
  unfold ChannelsApi.filter_category.
  destruct (Js.or_null (Query.category qy)) as [cat|]; [|eauto].
  rewrite filterM_total; [eauto|].
  intros c Hc. destruct (Hrows c (H2 c Hc)) as (_ & _ & Hcats).
  unfold Catalog.categories_include.
  destruct (Catalog.categories c); [eauto | contradiction].
Qed.

(** X12.  When the four documents load, the strict search answers 200 as
    soon as [q] is not empty and every channel row has a name and a
    categories list (an [alt_names] list may be missing); /channels answers
    200 as soon as every channel row has a name, an [alt_names] list and a
    categories list. *)
Theorem rows_with_names_and_lists_give_200 :
  forall (req : Request) (up : Upstream) (channels : list Channel.t),
    method req <> "OPTIONS" ->
    up_channels up = Some channels ->
    up_streams up <> None -> up_logos up <> None -> up_countries up <> None ->
    (forall c, In c channels ->
               Channel.name c <> None /\ Channel.categories c <> None) ->
    (Js.or_null (Query.q (query req)) <> None ->
     Catalog.status (fst (StrictSearch.handler req up)) = 200%nat) /\
    ((forall c, In c channels -> Channel.alt_names c <> None) ->
     Catalog.status (fst (ChannelsApi.handler req up)) = 200%nat).
Proof.
  intros req up channels Hm Hc Hs Hl Hco Hrows.
  unfold StrictSearch.handler, ChannelsApi.handler.
  destruct (String.eqb_spec (method req) "OPTIONS") as [E|_]; [contradiction|].
  rewrite Hc.
  destruct (up_streams up) as [sts|]; [|contradiction].
  destruct (up_logos up) as [lgs|]; [|contradiction].
  destruct (up_countries up) as [cos|]; [|contradiction].
  split.
  - destruct (Js.or_null (Query.q (query req))) as [qs|]; [|contradiction].
    intros _.
    destruct (strict_matching_total qs (query req) channels Hrows) as (rs & Hrs).
    now rewrite (@strict_respond_after_matching qs (query req) channels rs
                   sts lgs cos Hrs).
  - intros Halt.
    destruct (@channels_filtered_total (query req)
                (map (Catalog.enrich sts lgs cos) channels)) as (fs & Hfs).
    { intros e He. apply in_map_iff in He as (c & <- & Hin). simpl.
      destruct (Hrows c Hin). auto. }
    now rewrite (@channels_respond_after_filters (query req) channels
                   sts lgs cos fs Hfs).
Qed.

Lemma sample_rows_have_names :
  forall c, In c Sample.bbc ->
            Channel.name c <> None /\ Channel.categories c <> None.
Proof.
  intros c [<-|[<-|[<-|[]]]]; split; intros H; discriminate H.
Defined.

Lemma rows_with_names_on_sample :
  Catalog.status
    (fst (StrictSearch.handler (Sample.get (Sample.with_q "bbc" Sample.no_query))
                               (Sample.upstream Sample.bbc))) = 200%nat.
Proof.
  refine (proj1 (@rows_with_names_and_lists_give_200
           (Sample.get (Sample.with_q "bbc" Sample.no_query))
           (Sample.upstream Sample.bbc) Sample.bbc
           _ eq_refl _ _ _ sample_rows_have_names) _);
    intros H; discriminate H.
Defined.

(** X13.  A channel row without a name makes a text search fail: the strict
    search answers 500 whenever [q] is usable and some channel has no name,
    whatever the other parameters; /channels answers 500 whenever [search]
    is not empty, no country filter is applied and some channel has no name.
    A row with a name that does not contain the term and no [alt_names] list
    also makes /channels answer 500. *)
Theorem nameless_row_fails_the_text_search :
  forall (req : Request) (up : Upstream) (channels : list Channel.t)
         (c : Channel.t) (s : string),
    method req <> "OPTIONS" ->
    up_channels up = Some channels ->
    In c channels ->
    s <> "" ->
    (Query.q (query req) = Some s -> Channel.name c = None ->
     fst (StrictSearch.handler req up) = Catalog.internal_error) /\
    (Query.search (query req) = Some s ->
     Js.or_null (Query.country (query req)) = None ->
     Channel.name c = None \/
     (exists n, Channel.name c = Some n /\
                Js.includes (Js.toLowerCase n) (Js.toLowerCase s) = false /\
                Channel.alt_names c = None) ->
     fst (ChannelsApi.handler req up) = Catalog.internal_error).
Proof.
  intros req up channels c s Hm Hc Hin Hs.
  unfold StrictSearch.handler, ChannelsApi.handler.
  destruct (String.eqb_spec (method req) "OPTIONS") as [E|_]; [contradiction|].
  rewrite Hc. split.
  - intros Hq Hn. rewrite (proj2 (or_null_Some (Query.q (query req)) s)) by auto.
    destruct (up_streams up), (up_logos up), (up_countries up); try reflexivity.
    unfold StrictSearch.respond, StrictSearch.matching.
    rewrite (@filterM_Throw _ _ channels c Hin); [reflexivity|].
    unfold StrictSearch.search_matches. now rewrite Hn.
  - intros Hq Hco Hrow.
    destruct (up_streams up) as [sts|], (up_logos up) as [lgs|],
             (up_countries up) as [cos|]; try reflexivity.
    unfold ChannelsApi.respond, ChannelsApi.filtered,
      ChannelsApi.filter_country, ChannelsApi.filter_search.
    rewrite Hco, (proj2 (or_null_Some (Query.search (query req)) s)) by auto.
    rewrite (@filterM_Throw _ _ _ (Catalog.enrich sts lgs cos c));
      [reflexivity | now apply in_map |].
    unfold ChannelsApi.search_matches. simpl.
    destruct Hrow as [Hn|(n & Hn & Hi & Ha)]; rewrite Hn; simpl;
      [reflexivity|]. now rewrite Hi, Ha.
Qed.

Lemma nameless_row_on_sample :
  fst (StrictSearch.handler (Sample.get (Sample.with_q "bbc" Sample.no_query))
         (Sample.upstream [Sample.nameless]))
  = Catalog.internal_error.
Proof.
  apply (proj1 (@nameless_row_fails_the_text_search
                  (Sample.get (Sample.with_q "bbc" Sample.no_query))
                  (Sample.upstream [Sample.nameless]) [Sample.nameless]
                  Sample.nameless "bbc"
                  ltac:(intros H; discriminate H) eq_refl
                  ltac:(simpl; left; reflexivity)
                  ltac:(intros H; discriminate H)));
    reflexivity.
Defined.

(** ** /channels and the strict search on the same query *)

Lemma filter_map_swap (A B : Type) (f : A -> B) (p : B -> bool) (l : list A) :
  filter p (map f l) = map f (filter (fun x => p (f x)) l).
Proof.
  induction l as [|x r IH]; simpl; [reflexivity|].
  destruct (p (f x)); simpl; now rewrite IH.
Qed.

Lemma slice_map (A B : Type) (f : A -> B) (l : list A) (a b : Js.num) :
  Js.slice (map f l) a b = map f (Js.slice l a b).
Proof.
  unfold Js.slice. now rewrite length_map, skipn_map, firstn_map.
Qed.

Lemma search_matches_agree (term : string) (streams : list Stream.t)
    (logos : list Logo.t) (countries : list Country.t) (c : Channel.t) :
  Spec.holds (ChannelsApi.search_matches term
                (Catalog.enrich streams logos countries c))
  = Spec.holds (StrictSearch.search_matches term c).
Proof.
  unfold ChannelsApi.search_matches, StrictSearch.search_matches. simpl.
  destruct (Channel.name c) as [n|]; simpl; [|reflexivity].
  destruct (Js.includes (Js.toLowerCase n) term); simpl; [reflexivity|].
  destruct (Channel.alt_names c); reflexivity.
Qed.

(** X14.  /channels and the strict search select the same channels: for the
    same non-empty term (as [search] and as [q]) and the same [country] and
    [category], whenever neither filter stage throws the list /channels
    keeps is the enrichment of the list the strict search keeps, in the same
    order; so both send the same [data] for any [limit] that is supplied. *)
Theorem channels_and_strict_search_agree :
  forall (s : string) (qy : Query.t) (channels : list Channel.t)
         (streams : list Stream.t) (logos : list Logo.t)
         (countries : list Country.t)
         (fs : list Catalog.Enriched) (rs : list Channel.t),
    Query.search qy = Some s -> s <> "" ->
    ChannelsApi.filtered qy (map (Catalog.enrich streams logos countries) channels)
    = Js.Ok fs ->
    StrictSearch.matching s qy channels = Js.Ok rs ->
    fs = map (Catalog.enrich streams logos countries) rs /\
    (forall n, Js.slice fs (Js.Int 0) n
               = map (Catalog.enrich streams logos countries)
                     (Js.slice rs (Js.Int 0) n)).
Proof.
  intros s qy channels streams logos countries fs rs Hs Hne Hf Hr.
  set (enrich := Catalog.enrich streams logos countries) in *.
  assert (E : fs = map enrich rs); [|split; [exact E|]].
  2:{ intros n. rewrite E. apply slice_map. }
  unfold ChannelsApi.filtered, ChannelsApi.filter_search in Hf.
  rewrite (proj2 (or_null_Some (Query.search qy) s)) in Hf by auto.
  destruct (Js.filterM _ _) as [F2|] eqn:EF2 in Hf; simpl in Hf;
    [|discriminate].
  apply filterM_Ok in EF2 as [-> _].
  unfold StrictSearch.matching in Hr.
  destruct (Js.filterM _ channels) as [R1|] eqn:ER1 in Hr; simpl in Hr;
    [|discriminate].
  apply filterM_Ok in ER1 as [-> _].
  unfold ChannelsApi.filter_country in Hf.
  unfold StrictSearch.filter_country in Hr.
  unfold ChannelsApi.filter_category in Hf.
  unfold StrictSearch.filter_category in Hr.
  destruct (Js.or_null (Query.country qy)) as [co|];
    destruct (Js.or_null (Query.category qy)) as [ca|].
  - apply filterM_Ok in Hf as [-> _]. apply filterM_Ok in Hr as [-> _].
    rewrite !filter_map_swap. f_equal. simpl.
    rewrite (filter_comm _ (fun c => Js.strict_eq (Channel.country c) _)).
    f_equal. f_equal. apply filter_ext. intros c. apply search_matches_agree.
  - injection Hf as <-. injection Hr as <-.
    rewrite !filter_map_swap. f_equal. simpl.
    rewrite (filter_comm _ (fun c => Js.strict_eq (Channel.country c) _)).
    f_equal. apply filter_ext. intros c. apply search_matches_agree.
  - apply filterM_Ok in Hf as [-> _]. apply filterM_Ok in Hr as [-> _].
    rewrite !filter_map_swap. f_equal. simpl.
    f_equal. apply filter_ext. intros c. apply search_matches_agree.
  - injection Hf as <-. injection Hr as <-.
    rewrite !filter_map_swap. f_equal.
    apply filter_ext. intros c. apply search_matches_agree.
Qed.

Lemma channels_and_strict_agree_on_sample :
  Js.slice (map (Catalog.enrich [] [] [Sample.uk]) Sample.bbc)
           (Js.Int 0) (Js.Int 2)
  = map (Catalog.enrich [] [] [Sample.uk])
        (Js.slice Sample.bbc (Js.Int 0) (Js.Int 2)).
Proof.
  refine (proj2 (@channels_and_strict_search_agree "bbc"
           (Sample.with_search "bbc" Sample.no_query) Sample.bbc
           [] [] [Sample.uk] _ _ eq_refl _ eq_refl eq_refl) (Js.Int 2)).
  intros H; discriminate H.
Defined.

(* ------------------------------------------------------------------ *)
(** ** The categories listing as a whole *)

Section CategoryCounts.
Import Categories.

Lemma visit_get (c : Channel.t) (k k' : string) (m : CategoryMap) :
  k <> k' -> get k' (visit c m k) = get k' m.
Proof.
  intros N. unfold visit. rewrite has_get.
  destruct (get k m) as [cat|] eqn:Ek.
  - rewrite Ek, get_set. now destruct (String.eqb_spec k k').
  - rewrite get_set, String.eqb_refl, !get_set.
    now destruct (String.eqb_spec k k').
Qed.

Lemma visit_get_same (c : Channel.t) (k : string) (m : CategoryMap) :
  exists cat, get k (visit c m k) = Some cat /\ (1 <= Cat.channelCount cat)%nat.
Proof.
  unfold visit. rewrite has_get. destruct (get k m) as [cat|] eqn:Ek.
  - rewrite Ek, get_set, String.eqb_refl. eexists. split; [reflexivity|].
    simpl. lia.
  - rewrite get_set, String.eqb_refl, get_set, String.eqb_refl.
    eexists. split; [reflexivity|]. simpl. lia.
Qed.

Lemma fold_visit_positive (ws : list (Channel.t * string)) (m : CategoryMap) :
  (forall k cat, get k m = Some cat -> (1 <= Cat.channelCount cat)%nat) ->
  forall k cat,
    get k (fold_left (fun m v => visit (fst v) m (snd v)) ws m) = Some cat ->
    (1 <= Cat.channelCount cat)%nat.
Proof.
  revert m. induction ws as [|[c k0] ws IH]; intros m Hm; simpl; [exact Hm|].
  apply IH. intros k cat. destruct (String.eqb_spec k0 k) as [<-|N].
  - destruct (visit_get_same c k0 m) as (cat' & -> & Hpos).
    intros E. now injection E as <-.
  - rewrite visit_get by exact N. apply Hm.
Qed.

Lemma build_positive (channels : list Channel.t) (k : string) (cat : Cat.t) :
  get k (build channels) = Some cat -> (1 <= Cat.channelCount cat)%nat.
Proof.
  unfold build. rewrite build_as_visits.
  apply fold_visit_positive. intros k' cat'. discriminate.
Qed.

Lemma counted_set_new (k : string) (v : Cat.t) (m : CategoryMap) :
  has k m = false ->
  Spec.counted (set k v m) = (Spec.counted m + Cat.channelCount v)%nat.
Proof.
  unfold Spec.counted.
  induction m as [|[k0 w] r IH]; simpl; intros H; [lia|].
  apply orb_false_iff in H as [H0 Hr]. rewrite H0. simpl.
  rewrite IH by exact Hr. lia.
Qed.

Lemma counted_set_old (k : string) (v old : Cat.t) (m : CategoryMap) :
  get k m = Some old ->
  (Spec.counted (set k v m) + Cat.channelCount old
   = Spec.counted m + Cat.channelCount v)%nat.
Proof.
  unfold Spec.counted.
  induction m as [|[k0 w] r IH]; simpl; [discriminate|].
  destruct (k0 =? k); simpl.
  - intros E. injection E as ->. lia.
  - intros E. specialize (IH E). lia.
Qed.

Lemma visit_counted (c : Channel.t) (k : string) (m : CategoryMap) :
  Spec.counted (visit c m k) = S (Spec.counted m).
Proof.
  unfold visit. rewrite has_get. destruct (get k m) as [cat|] eqn:Ek.
  - rewrite Ek. pose proof (counted_set_old k
      {| Cat.name := Cat.name cat;
         Cat.channelCount := S (Cat.channelCount cat);
         Cat.channels := Cat.channels cat ++ [ref c] |} m Ek) as H.
    simpl in H. lia.
  - rewrite get_set, String.eqb_refl.
    assert (Hnew : has k m = false) by now rewrite has_get, Ek.
    pose proof (counted_set_new k
      {| Cat.name := k; Cat.channelCount := 0; Cat.channels := [] |} m Hnew)
      as H0.
    match goal with
    | |- Spec.counted (set k ?v ?m1) = _ =>
        pose proof (@counted_set_old k v
          {| Cat.name := k; Cat.channelCount := 0; Cat.channels := [] |} m1)
          as H1
    end.
    rewrite get_set, String.eqb_refl in H1. specialize (H1 eq_refl).
    cbn [Cat.name Cat.channelCount Cat.channels app] in *. lia.
Qed.

Lemma build_counted (channels : list Channel.t) :
  Spec.counted (build channels) = List.length (Spec.visits channels).
Proof.
  unfold build. rewrite build_as_visits.
  generalize (Spec.visits channels). intros ws.
  assert (G : forall m,
            Spec.counted (fold_left (fun m v => visit (fst v) m (snd v)) ws m)
            = (Spec.counted m + List.length ws)%nat).
  { induction ws as [|[c k] ws IH]; intros m; simpl; [lia|].
    rewrite IH, visit_counted. lia. }
  now rewrite G.
Qed.

End CategoryCounts.

Lemma descending_map (A B : Type) (key : B -> nat) (f : A -> B) (l : list A) :
  Spec.descending (fun a => key (f a)) l -> Spec.descending key (map f l).
Proof.
  unfold Spec.descending. induction 1 as [|x r Hr IH Hx]; simpl.
  - constructor.
  - constructor; [exact IH|]. apply Forall_map. exact Hx.
Qed.

Lemma list_sum_Permutation (l l' : list nat) :
  Permutation l l' -> list_sum l = list_sum l'.
Proof. induction 1; simpl; lia. Qed.

Lemma built_value (channels : list Channel.t) (cat : Categories.Cat.t) :
  In cat (map snd (Categories.build channels)) ->
  Categories.get (Categories.Cat.name cat) (Categories.build channels) = Some cat.
Proof.
  intros Hin. apply in_map_iff in Hin as ([k cat'] & E & Hin).
  simpl in E. subst cat'.
  destruct (build_tracks channels) as [Hnd Hget].
  pose proof (In_get _ _ _ Hnd Hin) as Hk.
  specialize (Hget k). rewrite Hk in Hget.
  destruct Hget as (-> & _). exact Hk.
Qed.

(** X15.  The categories listing is in decreasing order of [channelCount];
    every entry counts at least one channel, and its [topChannels] holds
    [min channelCount 5] references, so at least one and at most five. *)
Theorem categories_listing_is_ordered :
  forall (channels : list Channel.t),
    Spec.descending Categories.Entry.channelCount
                    (Categories.categoriesData channels) /\
    (forall e, In e (Categories.categoriesData channels) ->
       (1 <= Categories.Entry.channelCount e)%nat /\
       List.length (Categories.Entry.topChannels e)
       = Nat.min (Categories.Entry.channelCount e) 5).
Proof.
  intros channels. unfold Categories.categoriesData. split.
  - apply descending_map. simpl. apply sort_desc_descending.
  - intros e He. apply in_map_iff in He as (cat & <- & Hcat).
    apply sort_desc_In in Hcat. simpl. split.
    + apply (@build_positive channels (Categories.Cat.name cat)).
      now apply built_value.
    + destruct (built_entry channels cat Hcat) as [_ Hcnt].
      rewrite (@slice_from_zero _ (Categories.Cat.channels cat) 5) by lia.
      rewrite length_firstn, Hcnt. lia.
Qed.

Lemma pushed_nonempty (k : string) (channels : list Channel.t) :
  Spec.pushed k (Spec.visits channels) <> [] <->
  exists c, In c channels /\ Spec.lists k c.
Proof.
  unfold Spec.pushed, Spec.visits, Spec.lists. split.
  - intros H.
    destruct (filter (fun v => snd v =? k)
                (flat_map (fun c => map (pair c)
                                     (Js.or_empty (Channel.categories c)))
                          channels)) as [|[c k'] r] eqn:E;
      [now contradiction H|].
    assert (Hin : In (c, k') (filter (fun v => snd v =? k)
                (flat_map (fun c => map (pair c)
                                     (Js.or_empty (Channel.categories c)))
                          channels))) by (rewrite E; simpl; auto).
    apply filter_In in Hin as [Hin Hk]. simpl in Hk.
    apply String.eqb_eq in Hk. subst k'.
    apply in_flat_map in Hin as (c' & Hc' & Hin).
    apply in_map_iff in Hin as (k' & Ek & Hk). injection Ek as -> ->.
    exists c. split; [exact Hc'|].
    destruct (Channel.categories c) as [cats|]; [|destruct Hk].
    exists cats. auto.
  - intros (c & Hc & cats & Ecats & Hk) E. apply map_eq_nil in E.
    assert (Hin : In (c, k) (filter (fun v => snd v =? k)
                (flat_map (fun c => map (pair c)
                                     (Js.or_empty (Channel.categories c)))
                          channels))).
    { apply filter_In. split; [|apply String.eqb_refl].
      apply in_flat_map. exists c. split; [exact Hc|].
      rewrite Ecats. simpl. now apply in_map. }
    rewrite E in Hin. destruct Hin.
Qed.

(** X16.  The categories listing has exactly one entry for each category
    that some channel lists: the names of its entries are pairwise distinct,
    and a name is that of an entry if and only if some channel lists it. *)
Theorem one_entry_per_listed_category :
  forall (channels : list Channel.t),
    NoDup (map Categories.Entry.name (Categories.categoriesData channels)) /\
    (forall k,
       (exists e, In e (Categories.categoriesData channels) /\
                  Categories.Entry.name e = k) <->
       (exists c, In c channels /\ Spec.lists k c)).
Proof.
  intros channels. split.
  - unfold Categories.categoriesData. rewrite map_map. simpl.
    apply (Permutation_NoDup
             (l := map Categories.Cat.name (map snd (Categories.build channels)))).
    + apply Permutation_map, sort_desc_Permutation.
    + destruct (build_tracks channels) as [Hnd Hget].
      replace (map Categories.Cat.name (map snd (Categories.build channels)))
        with (map fst (Categories.build channels)); [exact Hnd|].
      rewrite map_map. apply map_ext_in. intros [k cat] Hin. simpl.
      specialize (Hget k). rewrite (In_get _ _ _ Hnd Hin) in Hget.
      now destruct Hget as (-> & _).
  - intros k. rewrite <- pushed_nonempty.
    destruct (build_tracks channels) as [Hnd Hget]. split.
    + intros (e & He & <-). unfold Categories.categoriesData in He.
      apply in_map_iff in He as (cat & <- & Hcat).
      apply sort_desc_In in Hcat. simpl.
      pose proof (built_value channels cat Hcat) as Hk.
      pose proof (build_positive channels _ Hk) as Hpos.
      specialize (Hget (Categories.Cat.name cat)). rewrite Hk in Hget.
      destruct Hget as (_ & Hchs & Hcnt). intros E.
      rewrite Hcnt, Hchs, E in Hpos. simpl in Hpos. lia.
    + intros Hp. specialize (Hget k).
      destruct (Categories.get k (Categories.build channels)) as [cat|] eqn:Eg;
        [|contradiction].
      destruct Hget as (Hname & _).
      exists (Categories.entry cat). split; [|exact Hname].
      unfold Categories.categoriesData. apply in_map. apply sort_desc_In.
      apply get_In in Eg. change cat with (snd (k, cat)). now apply in_map.
Qed.

Lemma visits_length (channels : list Channel.t) :
  List.length (Spec.visits channels)
  = list_sum (map (fun c => List.length (Js.or_empty (Channel.categories c)))
                  channels).
Proof.
  unfold Spec.visits.
  induction channels as [|c r IH]; simpl; [reflexivity|].
  now rewrite length_app, length_map, IH.
Qed.

(** X17.  The [channelCount]s of the categories listing add up to the number
    of category listings of the dataset, that is to the sum over the
    channels of the lengths of their [categories] lists (a channel without
    such a list counting for none). *)
Theorem category_counts_add_up_to_listings :
  forall (channels : list Channel.t),
    list_sum (map Categories.Entry.channelCount
                  (Categories.categoriesData channels))
    = list_sum (map (fun c => List.length (Js.or_empty (Channel.categories c)))
                    channels).
Proof.
  intros channels.
  assert (E : map Categories.Entry.channelCount
                  (Categories.categoriesData channels)
              = map Categories.Cat.channelCount
                    (Js.sort_desc Categories.Cat.channelCount
                       (map snd (Categories.build channels)))).
  { unfold Categories.categoriesData. rewrite map_map. now apply map_ext. }
  rewrite E.
  rewrite <- (list_sum_Permutation
                (Permutation_map Categories.Cat.channelCount
                   (sort_desc_Permutation Categories.Cat.channelCount
                      (map snd (Categories.build channels))))).
  rewrite map_map. fold (Spec.counted (Categories.build channels)).
  rewrite build_counted. apply visits_length.
Qed.

(* ------------------------------------------------------------------ *)
(** ** The /countries handler on the bundled datasets *)

Lemma filter_code_In p l e :
  In e (CountriesApi.filter_code p l) -> In e l.
Proof.
  unfold CountriesApi.filter_code.
  destruct (Js.or_null (CountriesApi.code p)); [|auto].
  intros H. now apply filter_In in H.
Qed.

Lemma countriesData_In (b : CountriesApi.Bundle) (p : CountriesApi.Params)
    (e : CountriesApi.Entry.t) :
  In e (CountriesApi.countriesData b p) <->
  In e (CountriesApi.filter_code p
          (map (CountriesApi.entry b p) (CountriesApi.countries b))) /\
  (1 <= CountriesApi.Entry.channelCount e)%nat.
Proof.
  unfold CountriesApi.countriesData.
  rewrite sort_desc_In, filter_In, Nat.ltb_lt. reflexivity.
Qed.

(** X18.  The bundled /countries lists countries in decreasing order of
    [channelCount].  Every entry comes from a row of the countries dataset,
    counts the channels whose [country] is exactly the entry's code, and
    counts at least one; when its [channels] are included they are these
    channels in dataset order; and with a non-empty [code] parameter every
    entry's code equals the parameter up to letter case. *)
Theorem bundled_countries_entries :
  forall (b : CountriesApi.Bundle) (p : CountriesApi.Params),
    Spec.descending CountriesApi.Entry.channelCount
                    (CountriesApi.countriesData b p) /\
    (forall e, In e (CountriesApi.countriesData b p) ->
       (exists country, In country (CountriesApi.countries b) /\
                        e = CountriesApi.entry b p country) /\
       (1 <= CountriesApi.Entry.channelCount e)%nat /\
       (exists listing,
          Spec.Kept (fun c => Channel.country c
                              = Some (CountriesApi.Entry.code e))
                    (CountriesApi.channels b) listing /\
          CountriesApi.Entry.channelCount e = List.length listing /\
          (CountriesApi.Entry.channels e = None \/
           CountriesApi.Entry.channels e
           = Some (map (CountriesApi.channel_out b) listing))) /\
       (forall s, CountriesApi.code p = Some s -> s <> "" ->
                  Spec.equal_ignoring_case (CountriesApi.Entry.code e) s)).
Proof.
  intros b p. split.
  - unfold CountriesApi.countriesData. apply sort_desc_descending.
  - intros e He. apply countriesData_In in He as [He Hpos].
    assert (Hrow : exists country, In country (CountriesApi.countries b) /\
                                   e = CountriesApi.entry b p country).
    { apply filter_code_In, in_map_iff in He as (country & <- & Hc). eauto. }
    split; [exact Hrow|]. split; [exact Hpos|]. split.
    + destruct Hrow as (country & _ & ->).
      exists (CountriesApi.countryChannels b country). simpl.
      split; [|split; [reflexivity|]].
      * apply filter_Kept. intros c. apply strict_eq_true.
      * destruct (CountriesApi.wants_channels p country); auto.
    + intros s Hs Hne. unfold CountriesApi.filter_code in He.
      rewrite (proj2 (or_null_Some (CountriesApi.code p) s)) in He by auto.
      apply filter_In in He as [_ He]. now apply String.eqb_eq in He.
Qed.

(** X19.  An entry of the bundled /countries carries its [channels] exactly
    when [includeChannels] is the string [true] or the [code] parameter is
    the entry's code letter for letter: a [code] that matches only up to
    letter case selects the country without its channels. *)
Theorem channels_included_for_exact_code_only :
  forall (b : CountriesApi.Bundle) (p : CountriesApi.Params)
         (e : CountriesApi.Entry.t),
    In e (CountriesApi.countriesData b p) ->
    (CountriesApi.Entry.channels e <> None <->
     CountriesApi.includeChannels p = Some "true" \/
     CountriesApi.code p = Some (CountriesApi.Entry.code e)).
Proof.
  intros b p e He. apply countriesData_In in He as [He _].
  apply filter_code_In, in_map_iff in He as (country & <- & _). simpl.
  unfold CountriesApi.wants_channels.
  rewrite <- !strict_eq_true, <- orb_true_iff.
  destruct (_ || _); split; try discriminate; try reflexivity.
  intros H. now contradiction H.
Qed.

Lemma channels_included_on_sample :
  CountriesApi.Entry.channels
    (CountriesApi.entry Sample.atlas (Sample.by_code "uk") Sample.uk) <> None
  <-> CountriesApi.includeChannels (Sample.by_code "uk") = Some "true" \/
      CountriesApi.code (Sample.by_code "uk")
      = Some (CountriesApi.Entry.code
                (CountriesApi.entry Sample.atlas (Sample.by_code "uk") Sample.uk)).
Proof.
  apply (@channels_included_for_exact_code_only
           Sample.atlas (Sample.by_code "uk")).
  simpl. left. reflexivity.
Defined.

Example lower_cased_code_omits_channels :
  map CountriesApi.Entry.channels
      (CountriesApi.countriesData Sample.atlas (Sample.by_code "uk")) = [None] /\
  map CountriesApi.Entry.channels
      (CountriesApi.countriesData Sample.atlas (Sample.by_code "UK"))
  = [Some (map (CountriesApi.channel_out Sample.atlas) Sample.bbc)].
Proof. split; reflexivity. Qed.

Lemma fold_sum (A : Type) (f : A -> nat) (l : list A) (n : nat) :
  fold_left (fun sum c => (sum + f c)%nat) l n = (n + list_sum (map f l))%nat.
Proof.
  revert n. induction l as [|x r IH]; intros n; simpl; [lia|].
  rewrite IH. lia.
Qed.

Lemma NoDup_map_same (A B : Type) (f : A -> B) (l : list A) (x y : A) :
  NoDup (map f l) -> In x l -> In y l -> f x = f y -> x = y.
Proof.
  induction l as [|a r IH]; simpl; [tauto|].
  intros Hnd Hx Hy E. inversion Hnd as [|? ? Ha Hr]; subst.
  destruct Hx as [->|Hx], Hy as [->|Hy]; auto.
  - exfalso. apply Ha. rewrite E. now apply in_map.
  - exfalso. apply Ha. rewrite <- E. now apply in_map.
Qed.

(** The channels of several distinct codes, counted code by code. *)
Lemma counts_by_code (channels : list Channel.t) (codes : list string) :
  NoDup codes ->
  list_sum (map (fun k => List.length
                   (filter (fun c => Js.strict_eq (Channel.country c) k)
                           channels)) codes)
  = List.length
      (filter (fun c => existsb (Js.strict_eq (Channel.country c)) codes)
              channels).
Proof.
  induction 1 as [|k ks Hk Hks IH]; simpl.
  - induction channels as [|c r IHc]; simpl; auto.
  - rewrite IH. clear IH.
    induction channels as [|c r IHc]; simpl; [reflexivity|].
    destruct (Js.strict_eq (Channel.country c) k) eqn:Ek; simpl.
    + assert (En : existsb (Js.strict_eq (Channel.country c)) ks = false).
      { destruct (existsb _ ks) eqn:Ex; [|reflexivity].
        apply existsb_exists in Ex as (k' & Hk' & Ek').
        apply strict_eq_true in Ek, Ek'. congruence. }
      rewrite En. simpl. lia.
    + destruct (existsb _ ks); simpl; lia.
Qed.

(** X20.  With pairwise distinct codes in the countries dataset,
    [totalChannels] of the bundled /countries is the number of channels
    whose [country] is the code of one of the listed entries: each such
    channel is counted once. *)
Theorem total_channels_counts_listed_channels_once :
  forall (b : CountriesApi.Bundle) (p : CountriesApi.Params),
    NoDup (map Country.code (CountriesApi.countries b)) ->
    exists counted,
      Spec.Kept (fun c => exists e,
                   In e (CountriesApi.countriesData b p) /\
                   Channel.country c = Some (CountriesApi.Entry.code e))
                (CountriesApi.channels b) counted /\
      CountriesApi.totalChannels (CountriesApi.countriesData b p)
      = List.length counted.
Proof.
  intros b p Hnd.
  set (data := CountriesApi.countriesData b p).
  exists (filter (fun c => existsb (Js.strict_eq (Channel.country c))
                                   (map CountriesApi.Entry.code data))
                 (CountriesApi.channels b)).
  split.
  - apply filter_Kept. intros c. rewrite existsb_exists. split.
    + intros (k & Hk & E). apply in_map_iff in Hk as (e & <- & He).
      exists e. split; [exact He | now apply strict_eq_true].
    + intros (e & He & E). exists (CountriesApi.Entry.code e).
      split; [now apply in_map | now apply strict_eq_true].
  - unfold CountriesApi.totalChannels. rewrite fold_sum. simpl.
    rewrite <- counts_by_code.
    + rewrite map_map. f_equal. apply map_ext_in. intros e He.
      apply countriesData_In in He as [He _].
      now apply filter_code_In, in_map_iff in He as (country & <- & _).
    + (* the codes of the entries are those of distinct rows *)
      subst data. unfold CountriesApi.countriesData.
      apply (Permutation_NoDup
               (Permutation_map CountriesApi.Entry.code
                  (sort_desc_Permutation CountriesApi.Entry.channelCount _))).
      assert (G : forall l, NoDup (map CountriesApi.Entry.code l) ->
                  forall f, NoDup (map CountriesApi.Entry.code (filter f l))).
      { induction l as [|x r IH]; simpl; intros Hl f; [constructor|].
        inversion Hl as [|? ? Hx Hr]; subst.
        destruct (f x); simpl; [|now apply IH].
        constructor; [|now apply IH].
        intros Hin. apply Hx. apply in_map_iff in Hin as (y & E & Hy).
        apply filter_In in Hy as [Hy _]. rewrite <- E. now apply in_map. }
      apply G. unfold CountriesApi.filter_code.
      assert (Hall : NoDup (map CountriesApi.Entry.code
                              (map (CountriesApi.entry b p)
                                   (CountriesApi.countries b))))
        by (rewrite map_map; exact Hnd).
      destruct (Js.or_null (CountriesApi.code p)); [now apply G | exact Hall].
Qed.

Lemma total_channels_on_sample :
  exists counted,
    Spec.Kept (fun c => exists e,
                 In e (CountriesApi.countriesData Sample.atlas
                                                  Sample.all_countries) /\
                 Channel.country c = Some (CountriesApi.Entry.code e))
              (CountriesApi.channels Sample.atlas) counted /\
    CountriesApi.totalChannels
      (CountriesApi.countriesData Sample.atlas Sample.all_countries)
    = List.length counted.
Proof.
  apply (@total_channels_counts_listed_channels_once
           Sample.atlas Sample.all_countries).
  simpl. repeat constructor. intros [].
Defined.

(* ------------------------------------------------------------------ *)
(** ** The /countries handler on the remote datasets *)

Lemma lookup_assign (k k' : string) (n : nat) (acc : RemoteCountries.Counts) :
  RemoteCountries.lookup k' (RemoteCountries.assign k n acc)
  = if k =? k' then Some n else RemoteCountries.lookup k' acc.
Proof.
  induction acc as [|[k0 m] r IH]; simpl; [reflexivity|].
  destruct (String.eqb_spec k0 k) as [->|N]; simpl.
  - destruct (k =? k'); reflexivity.
  - rewrite IH. destruct (String.eqb_spec k0 k') as [->|N']; [|reflexivity].
    destruct (String.eqb_spec k k'); [congruence | reflexivity].
Qed.

(** After the [reduce], the accumulator holds under a non-empty key the
    number of channels of that country, and nothing under the empty key. *)
Lemma countryCounts_lookup (channels : list Channel.t) (k : string) :
  RemoteCountries.or_zero
    (RemoteCountries.lookup k (RemoteCountries.countryCounts channels))
  = if k =? "" then 0%nat
    else List.length (filter (fun c => Js.strict_eq (Channel.country c) k)
                             channels).
Proof.
  unfold RemoteCountries.countryCounts.
  assert (G : forall acc,
            RemoteCountries.or_zero
              (RemoteCountries.lookup k
                 (fold_left RemoteCountries.count channels acc))
            = (RemoteCountries.or_zero (RemoteCountries.lookup k acc)
               + if (k =? "")%string then 0
                 else List.length
                        (filter (fun c => Js.strict_eq (Channel.country c) k)
                                channels))%nat).
  { induction channels as [|c r IH]; intros acc; simpl.
    - destruct (k =? ""); lia.
    - rewrite IH. unfold RemoteCountries.count.
      destruct (Js.or_null (Channel.country c)) as [k0|] eqn:E.
      + apply or_null_Some in E as [E N]. rewrite E, lookup_assign. simpl.
        rewrite (String.eqb_sym k0 k).
        destruct (String.eqb_spec k k0) as [->|N0].
        * rewrite (proj2 (String.eqb_neq k0 "")) by exact N. simpl. lia.
        * destruct (k =? ""); simpl; lia.
      + apply or_null_None in E as [E|E]; rewrite E; simpl.
        * destruct (k =? ""); lia.
        * destruct k; simpl; lia. }
  rewrite G. simpl. lia.
Qed.

(** X21.  On country codes that are not member names of [Object.prototype],
    the remote /countries lists countries in decreasing order of
    [channel_count]; every entry has a non-empty code and counts, at least
    one, the channels whose [country] is exactly that code; and every
    country row with a non-empty code that some channel carries is listed. *)
Theorem remote_countries_count_channels :
  forall (channels : list Channel.t) (countries : list Country.t),
    Spec.plain_keys channels countries ->
    Spec.descending RemoteCountries.channel_count
      (RemoteCountries.countriesWithCounts channels countries) /\
    (forall e, In e (RemoteCountries.countriesWithCounts channels countries) ->
       RemoteCountries.code e <> "" /\
       (1 <= RemoteCountries.channel_count e)%nat /\
       exists listing,
         Spec.Kept (fun c => Channel.country c = Some (RemoteCountries.code e))
                   channels listing /\
         RemoteCountries.channel_count e = List.length listing) /\
    (forall country c,
       In country countries -> Country.code country <> "" ->
       In c channels -> Channel.country c = Some (Country.code country) ->
       exists e, In e (RemoteCountries.countriesWithCounts channels countries) /\
                 RemoteCountries.code e = Country.code country).
Proof.
  intros channels countries _.
  unfold RemoteCountries.countriesWithCounts. split; [|split].
  - apply sort_desc_descending.
  - intros e He. apply sort_desc_In, in_map_iff in He as (country & <- & Hc).
    apply filter_In in Hc as [_ Hpos]. apply Nat.ltb_lt in Hpos. simpl.
    rewrite countryCounts_lookup in *.
    destruct (String.eqb_spec (Country.code country) "") as [E|N]; [lia|].
    split; [exact N|]. split; [exact Hpos|].
    eexists. split; [|reflexivity].
    apply filter_Kept. intros c. apply strict_eq_true.
  - intros country c Hco Hne Hc Ec.
    eexists. split.
    + apply sort_desc_In. apply in_map. apply filter_In. split; [exact Hco|].
      apply Nat.ltb_lt. rewrite countryCounts_lookup.
      rewrite (proj2 (String.eqb_neq _ "")) by exact Hne.
      assert (Hin : In c (filter (fun c => Js.strict_eq (Channel.country c)
                                             (Country.code country)) channels))
        by (apply filter_In; split; [exact Hc | now apply strict_eq_true]).
      destruct (filter _ channels); [destruct Hin | simpl; lia].
    + reflexivity.
Qed.

Lemma sample_keys_are_plain : Spec.plain_keys Sample.bbc [Sample.uk].
Proof.
  split.
  - intros c k [<-|[<-|[<-|[]]]] E; injection E as <-;
      simpl; intros H;
      repeat (destruct H as [H|H]; [discriminate H|]); exact H.
  - intros c [<-|[]]. simpl. intros H.
    repeat (destruct H as [H|H]; [discriminate H|]). exact H.
Defined.

Lemma remote_countries_on_sample :
  Spec.descending RemoteCountries.channel_count
    (RemoteCountries.countriesWithCounts Sample.bbc [Sample.uk]).
Proof.
  apply (@remote_countries_count_channels Sample.bbc [Sample.uk]
           sample_keys_are_plain).
Defined.

Lemma insert_desc_ext (A : Type) (k1 k2 : A -> nat) (x : A) (l : list A) :
  k1 x = k2 x -> (forall y, In y l -> k1 y = k2 y) ->
  Js.insert_desc k1 x l = Js.insert_desc k2 x l.
Proof.
  intros Hx. induction l as [|y r IH]; simpl; intros H; [reflexivity|].
  rewrite Hx, (H y) by auto. destruct (k2 y <=? k2 x)%nat; [reflexivity|].
  rewrite IH; auto.
Qed.

Lemma sort_desc_ext (A : Type) (k1 k2 : A -> nat) (l : list A) :
  (forall y, In y l -> k1 y = k2 y) ->
  Js.sort_desc k1 l = Js.sort_desc k2 l.
Proof.
  induction l as [|x r IH]; simpl; intros H; [reflexivity|].
  rewrite IH by auto. apply insert_desc_ext; [auto|].
  intros y Hy. apply sort_desc_In in Hy. auto.
Qed.

Lemma filter_ext_In (A : Type) (f g : A -> bool) (l : list A) :
  (forall x, In x l -> f x = g x) -> filter f l = filter g l.
Proof.
  induction l as [|x r IH]; simpl; intros H; [reflexivity|].
  rewrite (H x), IH by auto. reflexivity.
Qed.

(** X22.  The two /countries handlers agree: on the same channels and
    countries, with every country code non-empty (and none a member name of
    [Object.prototype]) and no [code] parameter, the bundled handler and the
    remote handler list the same countries in the same order with the same
    code, name, flag and channel count. *)
Theorem bundled_and_remote_countries_agree :
  forall (b : CountriesApi.Bundle) (p : CountriesApi.Params),
    (forall country, In country (CountriesApi.countries b) ->
                     Country.code country <> "") ->
    Spec.plain_keys (CountriesApi.channels b) (CountriesApi.countries b) ->
    Js.or_null (CountriesApi.code p) = None ->
    map (fun e => (CountriesApi.Entry.code e, CountriesApi.Entry.name e,
                   CountriesApi.Entry.flag e, CountriesApi.Entry.channelCount e))
        (CountriesApi.countriesData b p)
    = map (fun e => (RemoteCountries.code e, RemoteCountries.name e,
                     RemoteCountries.flag e, RemoteCountries.channel_count e))
          (RemoteCountries.countriesWithCounts (CountriesApi.channels b)
                                               (CountriesApi.countries b)).
Proof.
  intros b p Hcodes _ Hp.
  unfold CountriesApi.countriesData, CountriesApi.filter_code,
    RemoteCountries.countriesWithCounts.
  rewrite Hp.
  assert (Hcount : forall country, In country (CountriesApi.countries b) ->
            CountriesApi.Entry.channelCount (CountriesApi.entry b p country)
            = RemoteCountries.or_zero
                (RemoteCountries.lookup (Country.code country)
                   (RemoteCountries.countryCounts (CountriesApi.channels b)))).
  { intros country Hc. rewrite countryCounts_lookup.
    rewrite (proj2 (String.eqb_neq _ "")) by now apply Hcodes.
    reflexivity. }
  rewrite filter_map_swap, !sort_desc_map, !map_map.
  rewrite (@filter_ext_In _
             (fun x => (0 <? CountriesApi.Entry.channelCount
                               (CountriesApi.entry b p x))%nat)
             (fun country =>
                (0 <? RemoteCountries.or_zero
                        (RemoteCountries.lookup (Country.code country)
                           (RemoteCountries.countryCounts
                              (CountriesApi.channels b))))%nat)).
  2:{ intros x Hx. now rewrite Hcount. }
  set (kept := filter _ (CountriesApi.countries b)).
  assert (Hkept : forall x, In x kept -> In x (CountriesApi.countries b)).
  { intros x Hx. now apply filter_In in Hx. }
  rewrite (@sort_desc_ext _
             (fun c => CountriesApi.Entry.channelCount (CountriesApi.entry b p c))
             (fun c => RemoteCountries.or_zero
                         (RemoteCountries.lookup (Country.code c)
                            (RemoteCountries.countryCounts
                               (CountriesApi.channels b))))).
  2:{ intros x Hx. apply Hcount. auto. }
  apply map_ext_in. intros x Hx. apply sort_desc_In in Hx.
  simpl. f_equal. apply (Hcount x). auto.
Qed.

Lemma countries_agree_on_sample :
  map (fun e => (CountriesApi.Entry.code e, CountriesApi.Entry.name e,
                 CountriesApi.Entry.flag e, CountriesApi.Entry.channelCount e))
      (CountriesApi.countriesData Sample.atlas Sample.all_countries)
  = map (fun e => (RemoteCountries.code e, RemoteCountries.name e,
                   RemoteCountries.flag e, RemoteCountries.channel_count e))
        (RemoteCountries.countriesWithCounts
           (CountriesApi.channels Sample.atlas)
           (CountriesApi.countries Sample.atlas)).
Proof.
  apply (@bundled_and_remote_countries_agree Sample.atlas Sample.all_countries).
  - intros country [<-|[]] H. discriminate H.
  - exact sample_keys_are_plain.
  - reflexivity.
Defined.

(* ------------------------------------------------------------------ *)
(** ** The /channels handler on the bundled datasets *)

Lemma toLowerCase_empty (s : string) : Js.toLowerCase s = "" -> s = "".
Proof. destruct s; simpl; [reflexivity | discriminate]. Qed.

Lemma contains_in_empty (x : string) : Spec.contains "" x -> x = "".
Proof.
  intros (pre & post & E). destruct pre; simpl in E; [|discriminate].
  destruct x; [reflexivity | discriminate].
Qed.

Lemma or_null_includes (v : option string) (t : string) :
  t <> "" ->
  Search.opt_includes (Js.or_null v) (Js.toLowerCase t)
  = Search.opt_includes v (Js.toLowerCase t).
Proof.
  intros Ht. unfold Js.or_null, Js.truthy. destruct v as [n|]; [|reflexivity].
  destruct (String.eqb_spec n "") as [->|N]; cbn [negb]; [|reflexivity].
  unfold Search.opt_includes. change (Js.toLowerCase "") with "".
  destruct (Js.includes "" (Js.toLowerCase t)) eqn:E; [|reflexivity].
  apply includes_contains, contains_in_empty, toLowerCase_empty in E.
  contradiction.
Qed.

Lemma filter_filter (A : Type) (f g : A -> bool) (l : list A) :
  filter f (filter g l) = filter (fun x => g x && f x) l.
Proof.
  induction l as [|x r IH]; simpl; [reflexivity|].
  destruct (g x); simpl; [destruct (f x)|]; now rewrite IH.
Qed.

(** X23.  The bundled /channels returns, in dataset order and without any
    limit, the enrichment of exactly the channels that pass both tests: with
    a non-empty [country] the channel's country equals it up to letter case,
    and with a non-empty [search] the lower-cased term occurs in the
    lower-cased name, an alternative name or the network (the owners are
    not searched). *)
Theorem bundled_channels_selection :
  forall (b : Search.Bundle) (qy : Query.t),
    exists kept,
      Spec.Kept
        (fun c =>
           (forall p, Query.country qy = Some p -> p <> "" ->
              exists s, Channel.country c = Some s /\
                        Spec.equal_ignoring_case s p) /\
           (forall t, Query.search qy = Some t -> t <> "" ->
              (exists n, Channel.name c = Some n /\
                         Spec.contains_ignoring_case n t) \/
              (exists a, In a (Js.or_empty (Channel.alt_names c)) /\
                         Spec.contains_ignoring_case a t) \/
              (exists n, Channel.network c = Some n /\
                         Spec.contains_ignoring_case n t)))
        (Search.channels b) kept /\
      BundledChannels.results b qy = map (BundledChannels.enrich b) kept.
Proof.
  intros b qy.
  set (byCountry := fun c : Channel.t =>
         match Js.or_null (Query.country qy) with
         | Some p => BundledChannels.country_matches p (BundledChannels.enrich b c)
         | None => true
         end).
  set (bySearch := fun c : Channel.t =>
         match Js.or_null (Query.search qy) with
         | Some t => BundledChannels.search_matches (Js.toLowerCase t)
                       (BundledChannels.enrich b c)
         | None => true
         end).
  exists (filter (fun c => byCountry c && bySearch c) (Search.channels b)).
  split.
  - apply filter_Kept. intros c. rewrite andb_true_iff.
    assert (HC : byCountry c = true <->
                 forall p, Query.country qy = Some p -> p <> "" ->
                   exists s, Channel.country c = Some s /\
                             Spec.equal_ignoring_case s p).
    { unfold byCountry.
      destruct (Js.or_null (Query.country qy)) as [p|] eqn:E.
      - apply or_null_Some in E as [E Hp].
        unfold BundledChannels.country_matches, Spec.equal_ignoring_case.
        simpl. split.
        + intros H p' Hp' _. rewrite E in Hp'. injection Hp' as <-.
          destruct (Js.or_null (Channel.country c)) as [s|] eqn:Es;
            [|discriminate].
          apply or_null_Some in Es as [Es _]. apply String.eqb_eq in H. eauto.
        + intros H. destruct (H p E Hp) as (s & Es & Heq).
          assert (Ns : s <> "").
          { intros ->. simpl in Heq. symmetry in Heq.
            now apply toLowerCase_empty in Heq. }
          rewrite (proj2 (or_null_Some (Channel.country c) s)) by auto.
          now apply String.eqb_eq.
      - split; [|reflexivity]. intros _ p Hp Hne.
        apply or_null_None in E as [E|E]; congruence. }
    assert (HS : bySearch c = true <->
                 forall t, Query.search qy = Some t -> t <> "" ->
                   (exists n, Channel.name c = Some n /\
                              Spec.contains_ignoring_case n t) \/
                   (exists a, In a (Js.or_empty (Channel.alt_names c)) /\
                              Spec.contains_ignoring_case a t) \/
                   (exists n, Channel.network c = Some n /\
                              Spec.contains_ignoring_case n t)).
    { unfold bySearch.
      destruct (Js.or_null (Query.search qy)) as [t|] eqn:E.
      - apply or_null_Some in E as [E Ht].
        unfold BundledChannels.search_matches. simpl.
        rewrite (or_null_includes _ Ht).
        rewrite !orb_true_iff, !opt_includes_contains, some_includes_contains.
        split.
        + intros H t' Ht' _. rewrite E in Ht'. injection Ht' as <-. tauto.
        + intros H. specialize (H t E Ht). tauto.
      - split; [|reflexivity]. intros _ t Ht Hne.
        apply or_null_None in E as [E|E]; congruence. }
    rewrite HC, HS. reflexivity.
  - unfold BundledChannels.results. rewrite <- filter_filter.
    subst byCountry bySearch.
    assert (Hall : forall l : list Channel.t, filter (fun _ => true) l = l).
    { intros l. apply forallb_filter_id. now apply forallb_forall. }
    destruct (Js.or_null (Query.country qy)) as [p|];
      destruct (Js.or_null (Query.search qy)) as [t|];
      rewrite ?Hall, ?filter_map_swap; reflexivity.
Qed.

(* ------------------------------------------------------------------ *)
(** ** The country metadata of an enriched channel *)

(** X24.  An enriched channel of /channels and of the strict search takes
    its [country_name] and [country_flag] from the first row of the
    countries document whose code is exactly the channel's country; when the
    codes of that document are pairwise distinct, from the one row that has
    this code. *)
Theorem country_metadata_from_matching_row :
  forall (streams : list Stream.t) (logos : list Logo.t)
         (countries : list Country.t) (channel : Channel.t),
    (forall x,
       Spec.First (fun c => Channel.country channel = Some (Country.code c))
                  countries x ->
       Catalog.country_name (Catalog.enrich streams logos countries channel)
       = Some (Country.name x) /\
       Catalog.country_flag (Catalog.enrich streams logos countries channel)
       = Some (Country.flag x)) /\
    (NoDup (map Country.code countries) ->
     forall x, In x countries ->
       Channel.country channel = Some (Country.code x) ->
       Catalog.country_name (Catalog.enrich streams logos countries channel)
       = Some (Country.name x) /\
       Catalog.country_flag (Catalog.enrich streams logos countries channel)
       = Some (Country.flag x)).
Proof.
  intros streams logos countries channel.
  assert (Hspec : forall c, Js.strict_eq (Channel.country channel)
                                         (Country.code c) = true <->
                            Channel.country channel = Some (Country.code c))
    by (intros c; apply strict_eq_true).
  assert (Hfirst : forall x,
            Spec.First (fun c => Channel.country channel = Some (Country.code c))
                       countries x ->
            Catalog.countryInfo countries (Channel.country channel) = Some x).
  { intros x Hx. unfold Catalog.countryInfo, Js.find.
    exact (find_First _ Hspec Hx). }
  split.
  - intros x Hx. simpl. now rewrite (Hfirst x Hx).
  - intros Hnd x Hin Hx.
    destruct (exists_First _ _ countries Hspec) as (y & Hy); [eauto|].
    assert (E : y = x).
    { destruct Hy as (before & after & El & Ey & _).
      apply (@NoDup_map_same _ _ Country.code countries y x Hnd); auto.
      - rewrite El. apply in_or_app. right. simpl. auto.
      - congruence. }
    subst y. simpl. now rewrite (Hfirst x Hy).
Qed.

(* ------------------------------------------------------------------ *)
(** ** A negative limit *)

Lemma slice_negative_end (A : Type) (l : list A) (n : Z) :
  (0 < n)%Z ->
  Js.slice l (Js.Int 0) (Js.Int (- n))
  = firstn (List.length l - Z.to_nat n) l.
Proof.
  intros Hn. unfold Js.slice, Js.to_integer.
  assert (E0 : Js.rel_index (Z.of_nat (List.length l)) 0 = 0%Z).
  { unfold Js.rel_index. simpl. lia. }
  rewrite E0. simpl skipn. f_equal. unfold Js.rel_index.
  destruct (Z.ltb_spec (- n) 0); lia.
Qed.

(** X25.  A negative [limit] is not rejected: with [limit=-n] the strict
    search and /channels return all the channels that passed the filters
    except the last [n] (none when there are at most [n]), and [total] is
    their number. *)
Theorem negative_limit_drops_the_last_results :
  forall (qy : Query.t) (s : string) (n : Z),
    Query.limit qy = Some s -> Js.parseInt s = Js.Int (- n) -> (0 < n)%Z ->
    (forall qs channels streams logos countries rs,
       StrictSearch.matching qs qy channels = Js.Ok rs ->
       StrictSearch.respond qs qy channels streams logos countries
       = Js.Ok {| Catalog.status := 200;
                  Catalog.body :=
                    Catalog.Results qs
                      (map (Catalog.enrich streams logos countries)
                           (firstn (List.length rs - Z.to_nat n) rs))
                      (List.length rs - Z.to_nat n) |}) /\
    (forall channels streams logos countries fs,
       ChannelsApi.filtered qy
         (map (Catalog.enrich streams logos countries) channels) = Js.Ok fs ->
       ChannelsApi.respond qy channels streams logos countries
       = Js.Ok {| Catalog.status := 200;
                  Catalog.body :=
                    Catalog.Channels
                      (firstn (List.length fs - Z.to_nat n) fs)
                      (List.length fs - Z.to_nat n) |}).
Proof.
  intros qy s n Hl Hs Hn. split.
  - intros qs channels streams logos countries rs Hm.
    rewrite (@strict_respond_after_matching qs qy channels rs streams logos
               countries Hm).
    rewrite Hl. simpl Catalog.parsed_limit. rewrite Hs.
    rewrite slice_negative_end by exact Hn.
    rewrite length_firstn. do 3 f_equal. lia.
  - intros channels streams logos countries fs Hf.
    rewrite (@channels_respond_after_filters qy channels streams logos
               countries fs Hf).
    rewrite Hl. simpl Catalog.parsed_limit. rewrite Hs.
    rewrite slice_negative_end by exact Hn.
    rewrite length_firstn. do 3 f_equal. lia.
Qed.

Lemma negative_limit_on_sample :
  StrictSearch.respond "bbc"
    (Sample.with_limit "-1" (Sample.with_q "bbc" Sample.no_query))
    Sample.bbc [] [] []
  = Js.Ok {| Catalog.status := 200;
             Catalog.body :=
               Catalog.Results "bbc"
                 (map (Catalog.enrich [] [] [])
                      (firstn (List.length Sample.bbc - Z.to_nat 1) Sample.bbc))
                 (List.length Sample.bbc - Z.to_nat 1) |}.
Proof.
  apply (proj1 (@negative_limit_drops_the_last_results
                  (Sample.with_limit "-1" (Sample.with_q "bbc" Sample.no_query))
                  "-1" 1%Z eq_refl eq_refl ltac:(lia))).
  reflexivity.
Defined.
